(** * OpenMemory: embedding-model resolution (backend/src/core/models.ts)

    A shallow embedding of the model-name resolver: the candidate-path
    search ([find_models_file]), the two-level dialect parser
    ([parse_yaml]), the built-in table ([get_defaults]), the process-wide
    cache cell ([load_models]) and the lookup with its fallback chain
    ([get_model]).

    Modelling conventions.
    - A JS string is the sequence of its code units, restricted to the
      8-bit range: Rocq's [string].  Code points above U+00FF are outside
      the model.
    - [undefined] is [None]; a thrown exception is the [Throw] completion.
    - The module-level [cfg] cell, the filesystem probes and the console
      diagnostics are threaded through an explicit process state.

    The source is embedded twice.
    - The dictionary reading (the top-level definitions) takes a JS object
      used as a string-keyed dictionary ([model_cfg] and its
      [Record<string, string>] sections) for the [gmap] of its own
      properties, and [process.cwd()] for a string.  It says what the
      program does on texts without the key [__proto__]
      ([runtime_parse_yaml_plain]) and for sector and provider names that
      [Object.prototype] does not have ([runtime_resolve_plain]), in a
      process whose working directory exists.
    - The module [Node] makes neither assumption: property reads follow
      the prototype chain, writes to [__proto__] reach the inherited
      accessor, and [process.cwd()] may throw.  What the runtime decides
      and the source does not (the members of [Object.prototype], of
      strings and of functions) is a parameter, [Node.engine]. *)

From Stdlib Require Import ZArith Ascii.
From stdpp Require Import gmap strings list fin_maps.

Local Open Scope Z_scope.

(** ** Strings: the [String.prototype] methods the module calls *)

Module JsString.

(** JS truthiness of a string: every string but the empty one. *)
Definition truthy (s : string) : bool :=
  match s with
  | EmptyString => false
  | String _ _ => true
  end.

(** The characters matched by the regular expression class [\s], which
    are also the ones [trim] strips: TAB, LF, VT, FF, CR, SPACE and
    NO-BREAK SPACE (the members of the class below U+0100). *)
Definition is_space (c : ascii) : bool :=
  bool_decide (c ∈ ["009"; "010"; "011"; "012"; "013"; " "; "160"]%char).

Fixpoint trimStart (s : string) : string :=
  match s with
  | EmptyString => EmptyString
  | String c r => if is_space c then trimStart r else s
  end.

Fixpoint trimEnd (s : string) : string :=
  match s with
  | EmptyString => EmptyString
  | String c r =>
      let r' := trimEnd r in
      if is_space c && negb (truthy r') then EmptyString else String c r'
  end.

(** [s.trim()] *)
Definition trim (s : string) : string := trimEnd (trimStart s).

(** [s.search(/\S/)]: the index of the first character that is not white
    space, [-1] when there is none. *)
Fixpoint search_non_space (s : string) : Z :=
  match s with
  | EmptyString => -1
  | String c r =>
      if is_space c
      then (let i := search_non_space r in if i <? 0 then -1 else 1 + i)
      else 0
  end.

(** [s.startsWith(p)] *)
Fixpoint startsWith (p s : string) : bool :=
  match p, s with
  | EmptyString, _ => true
  | String a p', String b s' => if decide (a = b) then startsWith p' s' else false
  | String _ _, EmptyString => false
  end.

(** [s.endsWith(c)] for a one-character argument. *)
Fixpoint endsWithChar (c : ascii) (s : string) : bool :=
  match s with
  | EmptyString => false
  | String a EmptyString => bool_decide (a = c)
  | String _ r => endsWithChar c r
  end.

(** [s.split(sep)] for a one-character separator.  The result of the JS
    method is never the empty array; [split1] returns its first element
    and the remaining ones, so that the destructuring
    [[key, ...val_parts]] is total. *)
Fixpoint split1 (sep : ascii) (s : string) : string * list string :=
  match s with
  | EmptyString => (EmptyString, [])
  | String c r =>
      let '(h, t) := split1 sep r in
      if decide (c = sep) then (EmptyString, h :: t) else (String c h, t)
  end.

Definition split (sep : ascii) (s : string) : list string :=
  let '(h, t) := split1 sep s in h :: t.

(** [parts.join(sep)] *)
Fixpoint join (sep : string) (parts : list string) : string :=
  match parts with
  | [] => EmptyString
  | [x] => x
  | x :: rest => x +:+ sep +:+ join sep rest
  end.

End JsString.

(** ** Completions: a value or a thrown exception *)

Inductive js_error : Type :=
  | TypeError                      (* property write on [undefined] *)
  | FsError (code : string).       (* raised by [readFileSync] *)

Inductive completion (A : Type) : Type :=
  | Ok (a : A)
  | Throw (e : js_error).
Arguments Ok {A} a.
Arguments Throw {A} e.

(** ** The configuration mapping *)

(** [interface model_cfg { [sector: string]: Record<string, string> }] *)
Abbreviation model_cfg := (gmap string (gmap string string)).

(** ** The dialect parser *)

(** The loop state of [parse_yaml]: the object under construction and
    [cur_sec : string | null]. *)
Record parse_state : Type := ParseState {
  obj : model_cfg;
  cur_sec : option string
}.

(** One iteration of the [for (const line of lines)] loop. *)
Definition parse_line (st : parse_state) (line : string)
  : completion parse_state :=
  let trim := JsString.trim line in
  if negb (JsString.truthy trim) || JsString.startsWith "#" trim then Ok st
  else
    let indent := JsString.search_non_space line in
    let '(key, val_parts) := JsString.split1 ":" trim in
    let val := JsString.trim (JsString.join ":" val_parts) in
    if (indent =? 0) && JsString.truthy val then Ok st
    else if indent =? 0 then
      Ok {| obj := <[key := ∅]> (obj st); cur_sec := Some key |}
    else
      match cur_sec st with
      | Some sec =>
          if JsString.truthy sec && JsString.truthy val then
            (* obj[cur_sec][key] = val *)
            match obj st !! sec with
            | Some section =>
                Ok {| obj := <[sec := <[key := val]> section]> (obj st);
                      cur_sec := cur_sec st |}
            | None => Throw TypeError
            end
          else Ok st
      | None => Ok st
      end.

Fixpoint parse_lines (st : parse_state) (lines : list string)
  : completion parse_state :=
  match lines with
  | [] => Ok st
  | line :: rest =>
      match parse_line st line with
      | Ok st' => parse_lines st' rest
      | Throw e => Throw e
      end
  end.

Definition parse_start : parse_state := {| obj := ∅; cur_sec := None |}.

Definition parse_yaml (yml : string) : completion model_cfg :=
  match parse_lines parse_start (JsString.split "010" yml) with
  | Ok st => Ok (obj st)
  | Throw e => Throw e
  end.

(** ** The built-in table *)

Definition get_defaults : model_cfg :=
  <["episodic" :=
      <["ollama" := "nomic-embed-text"]>
      (<["openai" := "text-embedding-3-small"]>
      (<["gemini" := "gemini-embedding-001"]>
      (<["aws" := "amazon.titan-embed-text-v2:0"]>
      (<["local" := "all-MiniLM-L6-v2"]> ∅))))]>
  (<["semantic" :=
      <["ollama" := "nomic-embed-text"]>
      (<["openai" := "text-embedding-3-small"]>
      (<["gemini" := "gemini-embedding-001"]>
      (<["aws" := "amazon.titan-embed-text-v2:0"]>
      (<["local" := "all-MiniLM-L6-v2"]> ∅))))]>
  (<["procedural" :=
      <["ollama" := "nomic-embed-text"]>
      (<["openai" := "text-embedding-3-small"]>
      (<["gemini" := "gemini-embedding-001"]>
      (<["aws" := "amazon.titan-embed-text-v2:0"]>
      (<["local" := "all-MiniLM-L6-v2"]> ∅))))]>
  (<["emotional" :=
      <["ollama" := "nomic-embed-text"]>
      (<["openai" := "text-embedding-3-small"]>
      (<["gemini" := "gemini-embedding-001"]>
      (<["aws" := "amazon.titan-embed-text-v2:0"]>
      (<["local" := "all-MiniLM-L6-v2"]> ∅))))]>
  (<["reflective" :=
      <["ollama" := "nomic-embed-text"]>
      (<["openai" := "text-embedding-3-large"]>
      (<["gemini" := "gemini-embedding-001"]>
      (<["aws" := "amazon.titan-embed-text-v2:0"]>
      (<["local" := "all-mpnet-base-v2"]> ∅))))]> ∅)))).

(** ** Paths: [join] of Node's [path] module, POSIX flavour *)

Module NodePath.

(** The segment walk of [normalize]: empty segments and [.] are dropped,
    [..] removes the segment before it; at the front of a relative path
    ([allow_above_root]) it is kept, at the root it is dropped.  The
    stack holds the kept segments, last one first. *)
Definition push_segment (allow_above_root : bool) (stack : list string)
    (seg : string) : list string :=
  if decide (seg = "") then stack
  else if decide (seg = ".") then stack
  else if decide (seg = "..") then
    match stack with
    | top :: below => if decide (top = "..") then seg :: stack else below
    | [] => if allow_above_root then [seg] else []
    end
  else seg :: stack.

Definition normalize_segments (allow_above_root : bool)
    (segs : list string) : list string :=
  rev (fold_left (push_segment allow_above_root) segs []).

Definition normalize (path : string) : string :=
  if negb (JsString.truthy path) then "."
  else
    let is_absolute := JsString.startsWith "/" path in
    let trailing := JsString.endsWithChar "/" path in
    let body :=
      JsString.join "/"
        (normalize_segments (negb is_absolute) (JsString.split "/" path)) in
    if negb (JsString.truthy body)
    then (if is_absolute then "/" else if trailing then "./" else ".")
    else (if is_absolute then "/" else "") +:+ body
           +:+ (if trailing then "/" else "").

(** [join(a, b)]: the non-empty arguments are glued with [/] and the
    result is normalized. *)
Definition join (a b : string) : string :=
  match JsString.truthy a, JsString.truthy b with
  | true, true => normalize (a +:+ "/" +:+ b)
  | true, false => normalize a
  | false, true => normalize b
  | false, false => "."
  end.

End NodePath.

(** ** The host and the process state *)

(** What the module observes of its surroundings: where it is installed
    ([__dirname]), the working directory (the value of [process.cwd()],
    taken to return: a process whose working directory has been removed is
    the subject of [Node.host]), and the two [fs] calls.  [existsSync] answers with
    a boolean and never throws; [readFileSync] may throw whatever
    [existsSync] answered. *)
Record host : Type := Host {
  __dirname : string;
  process_cwd : string;
  existsSync : string → bool;
  readFileSync : string → completion string
}.

Inductive event : Type :=
  | ExistsSync (p : string)
  | ReadFileSync (p : string)
  | ConsoleWarn (msg : string)
  | ConsoleLog (p : string) (sectors : nat)
  | ConsoleError (e : js_error).


(** [let cfg: model_cfg | null = null] and the observable effects so far,
    oldest first. *)
Record process : Type := Process {
  cfg : option model_cfg;
  trace : list event
}.

Definition process_start : process := {| cfg := None; trace := [] |}.

(** Computations over the process state that may throw. *)
Definition M (A : Type) : Type := process → completion A * process.

Definition ret {A} (a : A) : M A := λ st, (Ok a, st).

Definition bind {A B} (m : M A) (k : A → M B) : M B :=
  λ st, match m st with
        | (Ok a, st') => k a st'
        | (Throw e, st') => (Throw e, st')
        end.

Notation "'let*' x ':=' m 'in' k" := (bind m (λ x, k))
  (at level 10, x name, m at level 100, k at level 200, only parsing).

Definition lift {A} (c : completion A) : M A := λ st, (c, st).

Definition try_catch {A} (body : M A) (handler : js_error → M A) : M A :=
  λ st, match body st with
        | (Ok a, st') => (Ok a, st')
        | (Throw e, st') => handler e st'
        end.

Definition emit (ev : event) : M unit :=
  λ st, (Ok (), {| cfg := cfg st; trace := trace st ++ [ev] |}).

Definition read_cfg : M (option model_cfg) := λ st, (Ok (cfg st), st).

Definition write_cfg (c : model_cfg) : M unit :=
  λ st, (Ok (), {| cfg := Some c; trace := trace st |}).

(** ** The file locator *)

Definition candidate_paths (h : host) : list string :=
  [ NodePath.join (__dirname h) "../../../models.yml";
    "/app/models.yml";
    NodePath.join (process_cwd h) "models.yml" ].

(** [for (const p of paths) { if (existsSync(p)) return p; } return null] *)
Fixpoint first_existing (h : host) (paths : list string) : M (option string) :=
  match paths with
  | [] => ret None
  | p :: rest =>
      let* _ := emit (ExistsSync p) in
      if existsSync h p then ret (Some p) else first_existing h rest
  end.

Definition find_models_file (h : host) : M (option string) :=
  first_existing h (candidate_paths h).

(** ** The cache and the load *)

Definition use_defaults : M model_cfg :=
  let* _ := write_cfg get_defaults in ret get_defaults.

Definition load_models (h : host) : M model_cfg :=
  let* cached := read_cfg in
  match cached with
  | Some c => ret c
  | None =>
      let* found := find_models_file h in
      match found with
      | Some p =>
          if JsString.truthy p then
            try_catch
              (let* _ := emit (ReadFileSync p) in
               let* yml := lift (readFileSync h p) in
               let* c := lift (parse_yaml yml) in
               let* _ := write_cfg c in
               let* _ := emit (ConsoleLog p (size c)) in
               ret c)
              (λ e, let* _ := emit (ConsoleError e) in use_defaults)
          else
            let* _ := emit (ConsoleWarn "[MODELS] models.yml not found, using defaults") in
            use_defaults
      | None =>
          let* _ := emit (ConsoleWarn "[MODELS] models.yml not found, using defaults") in
          use_defaults
      end
  end.

(** ** The lookup *)

(** [x || y] on [string | undefined]. *)
Definition js_or (x y : option string) : option string :=
  match x with
  | Some s => if JsString.truthy s then x else y
  | None => y
  end.

(** [x || "literal"] *)
Definition js_or_else (x : option string) (d : string) : string :=
  match x with
  | Some s => if JsString.truthy s then s else d
  | None => d
  end.

(** [c[sector]?.[provider]] *)
Definition opt_chain (c : model_cfg) (sector provider : string) : option string :=
  match c !! sector with
  | Some section => section !! provider
  | None => None
  end.

Definition get_model (h : host) (sector provider : string) : M string :=
  let* c := load_models h in
  ret (js_or_else
         (js_or (opt_chain c sector provider) (opt_chain c "semantic" provider))
         "nomic-embed-text").

(** [get_provider_config]: the object literal [{}], whatever the argument. *)
Definition get_provider_config (provider : string) : gmap string string := ∅.

(** * The program on the JavaScript runtime

    The definitions above read the configuration objects as maps of their
    own properties and take [process.cwd()] to return.  The module below
    embeds the same source without these two readings: property reads
    follow the prototype chain, writes to the key [__proto__] reach the
    accessor inherited from [Object.prototype], and [process.cwd()] may
    throw.  [Object.prototype] is the standard one: data properties and the
    accessor [__proto__]. *)

Module Node.

(** The values the lookup expressions of [get_model] can produce.  [Plain]
    is an object whose own properties are strings and whose prototype is
    [Object.prototype]: a section, or the object that the parser makes the
    prototype of the configuration object.  [Foreign] is any other value
    of the engine (a function, a number, ...), named by a handle. *)
Inductive value : Type :=
  | Undefined
  | Null
  | Str (s : string)
  | Plain (own : gmap string string)
  | ObjectPrototype
  | Foreign (handle : string).

(** What the engine answers where the source does not decide: the data
    members of [Object.prototype] by name ([Undefined] when there is none),
    property reads on a string primitive and on a foreign value, and the
    truthiness of a foreign value. *)
Record engine : Type := Engine {
  proto_member : string → value;
  string_member : string → string → completion value;
  foreign_member : string → string → completion value;
  foreign_truthy : string → bool
}.

(** The configuration object: its own properties, which are sections, and
    its prototype, which is [Object.prototype] ([None]) until the parser
    assigns to the key [__proto__], and from then on a fresh object with
    string properties. *)
Record model_cfg : Type := ModelCfg {
  sections : gmap string (gmap string string);
  created_proto : option (gmap string string)
}.

(** An object literal or [{}] filled with keys other than [__proto__]. *)
Definition plain (own : gmap string (gmap string string)) : model_cfg :=
  {| sections := own; created_proto := None |}.

(** [target[key] = val] for a string [val] on an object with string
    properties: the key [__proto__] reaches the inherited setter, which
    ignores a value that is not an object. *)
Definition set_entry (own : gmap string string) (key val : string)
  : gmap string string :=
  if decide (key = "__proto__") then own else <[key := val]> own.

(** [obj[key] = {}] on the configuration object: the key [__proto__]
    reaches the inherited setter, which makes the fresh object the
    prototype. *)
Definition set_section (o : model_cfg) (key : string) : model_cfg :=
  if decide (key = "__proto__")
  then {| sections := sections o; created_proto := Some ∅ |}
  else {| sections := <[key := ∅]> (sections o);
          created_proto := created_proto o |}.

Record parse_state : Type := ParseState {
  obj : model_cfg;
  cur_sec : option string
}.

(** One iteration of the loop of [parse_yaml].  The two [Throw] branches
    are for a [cur_sec] that names no object the loop made: a write
    through [undefined], or, for [__proto__], through [Object.prototype]
    itself, which the model does not follow.  The loop never gets there,
    since [cur_sec] is only set together with [obj[cur_sec] = {}]. *)
Definition parse_line (st : parse_state) (line : string)
  : completion parse_state :=
  let trim := JsString.trim line in
  if negb (JsString.truthy trim) || JsString.startsWith "#" trim then Ok st
  else
    let indent := JsString.search_non_space line in
    let '(key, val_parts) := JsString.split1 ":" trim in
    let val := JsString.trim (JsString.join ":" val_parts) in
    if (indent =? 0) && JsString.truthy val then Ok st
    else if indent =? 0 then
      Ok {| obj := set_section (obj st) key; cur_sec := Some key |}
    else
      match cur_sec st with
      | Some sec =>
          if JsString.truthy sec && JsString.truthy val then
            (* obj[cur_sec][key] = val *)
            if decide (sec = "__proto__") then
              match created_proto (obj st) with
              | Some target =>
                  Ok {| obj := {| sections := sections (obj st);
                                  created_proto := Some (set_entry target key val) |};
                        cur_sec := cur_sec st |}
              | None => Throw TypeError
              end
            else
              match sections (obj st) !! sec with
              | Some target =>
                  Ok {| obj := {| sections :=
                                    <[sec := set_entry target key val]>
                                      (sections (obj st));
                                  created_proto := created_proto (obj st) |};
                        cur_sec := cur_sec st |}
              | None => Throw TypeError
              end
          else Ok st
      | None => Ok st
      end.

Fixpoint parse_lines (st : parse_state) (lines : list string)
  : completion parse_state :=
  match lines with
  | [] => Ok st
  | line :: rest =>
      match parse_line st line with
      | Ok st' => parse_lines st' rest
      | Throw e => Throw e
      end
  end.

Definition parse_start : parse_state :=
  {| obj := plain ∅; cur_sec := None |}.

Definition parse_yaml (yml : string) : completion model_cfg :=
  match parse_lines parse_start (JsString.split "010" yml) with
  | Ok st => Ok (obj st)
  | Throw e => Throw e
  end.

(** The object literal of [get_defaults]: none of its keys is
    [__proto__]. *)
Definition get_defaults : model_cfg := plain get_defaults.

(** The host, with a [process.cwd()] that may throw: a system error,
    [FsError "ENOENT"], once the working directory has been removed. *)
Record host : Type := Host {
  __dirname : string;
  process_cwd : completion string;
  existsSync : string → bool;
  readFileSync : string → completion string
}.

Record process : Type := Process {
  cfg : option model_cfg;
  trace : list event
}.

Definition process_start : process := {| cfg := None; trace := [] |}.

Definition M (A : Type) : Type := process → completion A * process.

Definition ret {A} (a : A) : M A := λ st, (Ok a, st).

Definition bind {A B} (m : M A) (k : A → M B) : M B :=
  λ st, match m st with
        | (Ok a, st') => k a st'
        | (Throw e, st') => (Throw e, st')
        end.

Notation "'let!' x ':=' m 'in' k" := (bind m (λ x, k))
  (at level 10, x name, m at level 100, k at level 200, only parsing).

Definition lift {A} (c : completion A) : M A := λ st, (c, st).

Definition try_catch {A} (body : M A) (handler : js_error → M A) : M A :=
  λ st, match body st with
        | (Ok a, st') => (Ok a, st')
        | (Throw e, st') => handler e st'
        end.

Definition emit (ev : event) : M unit :=
  λ st, (Ok (), {| cfg := cfg st; trace := trace st ++ [ev] |}).

Definition read_cfg : M (option model_cfg) := λ st, (Ok (cfg st), st).

Definition write_cfg (c : model_cfg) : M unit :=
  λ st, (Ok (), {| cfg := Some c; trace := trace st |}).

Fixpoint first_existing (h : host) (paths : list string) : M (option string) :=
  match paths with
  | [] => ret None
  | p :: rest =>
      let! _ := emit (ExistsSync p) in
      if existsSync h p then ret (Some p) else first_existing h rest
  end.

(** The array of paths is built, [process.cwd()] called, before the
    first probe. *)
Definition find_models_file (h : host) : M (option string) :=
  let! cwd := lift (process_cwd h) in
  first_existing h
    [ NodePath.join (__dirname h) "../../../models.yml";
      "/app/models.yml";
      NodePath.join cwd "models.yml" ].

Definition use_defaults : M model_cfg :=
  let! _ := write_cfg get_defaults in ret get_defaults.

Definition load_models (h : host) : M model_cfg :=
  let! cached := read_cfg in
  match cached with
  | Some c => ret c
  | None =>
      let! found := find_models_file h in
      match found with
      | Some p =>
          if JsString.truthy p then
            try_catch
              (let! _ := emit (ReadFileSync p) in
               let! yml := lift (readFileSync h p) in
               let! c := lift (parse_yaml yml) in
               let! _ := write_cfg c in
               let! _ := emit (ConsoleLog p (size (sections c))) in
               ret c)
              (λ e, let! _ := emit (ConsoleError e) in use_defaults)
          else
            let! _ := emit (ConsoleWarn "[MODELS] models.yml not found, using defaults") in
            use_defaults
      | None =>
          let! _ := emit (ConsoleWarn "[MODELS] models.yml not found, using defaults") in
          use_defaults
      end
  end.

(** [c[name]] on the configuration object: the accessor [__proto__]
    answers with the prototype; otherwise an own section, then a property
    of the prototype the parser created, then a member of
    [Object.prototype]. *)
Definition get (E : engine) (c : model_cfg) (name : string) : value :=
  if decide (name = "__proto__") then
    match created_proto c with
    | Some own => Plain own
    | None => ObjectPrototype
    end
  else
    match sections c !! name with
    | Some section => Plain section
    | None =>
        match created_proto c with
        | Some own =>
            match own !! name with
            | Some v => Str v
            | None => proto_member E name
            end
        | None => proto_member E name
        end
    end.

(** [v?.[name]] *)
Definition member (E : engine) (v : value) (name : string)
  : completion value :=
  match v with
  | Undefined | Null => Ok Undefined
  | Str text => string_member E text name
  | Plain own =>
      if decide (name = "__proto__") then Ok ObjectPrototype
      else Ok (match own !! name with
               | Some s => Str s
               | None => proto_member E name
               end)
  | ObjectPrototype =>
      if decide (name = "__proto__") then Ok Null
      else Ok (proto_member E name)
  | Foreign handle => foreign_member E handle name
  end.

Definition truthy (E : engine) (v : value) : bool :=
  match v with
  | Undefined | Null => false
  | Str s => JsString.truthy s
  | Plain _ | ObjectPrototype => true
  | Foreign handle => foreign_truthy E handle
  end.

(** [cfg[sector]?.[provider] || cfg.semantic?.[provider] ||
    "nomic-embed-text"] *)
Definition resolve (E : engine) (c : model_cfg) (sector provider : string)
  : completion value :=
  match member E (get E c sector) provider with
  | Throw e => Throw e
  | Ok own =>
      if truthy E own then Ok own
      else
        match member E (get E c "semantic") provider with
        | Throw e => Throw e
        | Ok fallback =>
            if truthy E fallback then Ok fallback
            else Ok (Str "nomic-embed-text")
        end
  end.

Definition get_model (E : engine) (h : host) (sector provider : string)
  : M value :=
  let! c := load_models h in
  lift (resolve E c sector provider).

End Node.

(** * Specification vocabulary and concrete inputs *)

(** ** Mappings and parser states *)

(** No entry of the mapping is the empty string. *)
Definition values_nonempty (c : model_cfg) : Prop :=
  ∀ sector section provider v,
    c !! sector = Some section → section !! provider = Some v → v ≠ "".

(** The loop invariant of [parse_yaml]: the current section, when there is
    one, has its object in [obj], and every recorded value is non-empty. *)
Definition parse_inv (st : parse_state) : Prop :=
  (∀ sec, cur_sec st = Some sec → is_Some (obj st !! sec))
  ∧ values_nonempty (obj st).

(** A string without the separator is one piece. *)
Definition unbroken (sep : ascii) (s : string) : Prop :=
  JsString.split sep s = [s].

(** The line break, and a string without one. *)
Definition nl : string := String "010" EmptyString.

Definition single_line (s : string) : Prop := unbroken "010" s.

(** The key of a line: what precedes the first colon of its trimmed
    content. *)
Definition line_key (line : string) : string :=
  (JsString.split1 ":" (JsString.trim line)).1.

(** A section header for [key]: not blank, not a comment, at indentation
    0, and nothing but white space after its key. *)
Definition header_line (line key : string) : Prop :=
  JsString.truthy (JsString.trim line) = true
  ∧ JsString.startsWith "#" (JsString.trim line) = false
  ∧ JsString.search_non_space line = 0
  ∧ ∃ val_parts,
      JsString.split1 ":" (JsString.trim line) = (key, val_parts)
      ∧ JsString.trim (JsString.join ":" val_parts) = "".



(** ** Paths *)

(** A directory name: not empty, not [.] or [..], without a slash. *)
Definition plain_segment (s : string) : Prop :=
  s ≠ "" ∧ s ≠ "." ∧ s ≠ ".." ∧ unbroken "/" s.

(** The absolute path with the given segments. *)
Definition absolute_path (segs : list string) : string :=
  "/" +:+ JsString.join "/" segs.

(** ** Process states *)

(** The paths handed to [existsSync], in order: up to and including the
    first one that exists. *)
Fixpoint probed (h : host) (paths : list string) : list string :=
  match paths with
  | [] => []
  | p :: rest => p :: (if existsSync h p then [] else probed h rest)
  end.

(** The state after some more events, with the cache cell untouched, and
    with the cache cell set. *)
Definition log_events (st : process) (evs : list event) : process :=
  {| cfg := cfg st; trace := trace st ++ evs |}.

Definition cache (c : model_cfg) (st : process) (evs : list event) : process :=
  {| cfg := Some c; trace := trace st ++ evs |}.

(** What a load with an empty cache cell leaves in the cell, and the
    events it adds. *)
Definition load_outcome (h : host) : model_cfg * list event :=
  let probes := ExistsSync <$> probed h (candidate_paths h) in
  match List.find (existsSync h) (candidate_paths h) with
  | None =>
      (get_defaults,
       probes ++ [ConsoleWarn "[MODELS] models.yml not found, using defaults"])
  | Some p =>
      match readFileSync h p with
      | Throw e => (get_defaults, probes ++ [ReadFileSync p; ConsoleError e])
      | Ok yml =>
          match parse_yaml yml with
          | Ok c => (c, probes ++ [ReadFileSync p; ConsoleLog p (size c)])
          | Throw e => (get_defaults, probes ++ [ReadFileSync p; ConsoleError e])
          end
      end
  end.

(** The process states that calls of the exported functions produce from
    the start of the process, on any hosts. *)
Inductive reachable : process → Prop :=
  | reachable_start : reachable process_start
  | reachable_load_models h st :
      reachable st → reachable (load_models h st).2
  | reachable_get_model h sector provider st :
      reachable st → reachable (get_model h sector provider st).2.

(** ** The built-in table's keys *)

Definition builtin_sectors : list string :=
  ["episodic"; "semantic"; "procedural"; "emotional"; "reflective"].

Definition builtin_providers : list string :=
  ["ollama"; "openai"; "gemini"; "aws"; "local"].

(** ** Concrete inputs *)

(** The five-line configuration text. *)
Definition sample_yml : string :=
  "semantic:" +:+ nl +:+
  "  openai: custom-model-A" +:+ nl +:+
  "# comment line" +:+ nl +:+
  "episodic:" +:+ nl +:+
  "  local: custom-model-B".

Definition sample_cfg : model_cfg :=
  <["semantic" := <["openai" := "custom-model-A"]> ∅]>
  (<["episodic" := <["local" := "custom-model-B"]> ∅]> ∅).

(** A host whose filesystem holds exactly [files]; the module is installed
    in [/srv/om/backend/dist/core] and runs in [/srv/om/backend]. *)
Definition disk_host (files : gmap string string) : host :=
  {| __dirname := "/srv/om/backend/dist/core";
     process_cwd := "/srv/om/backend";
     existsSync := λ p, bool_decide (is_Some (files !! p));
     readFileSync := λ p,
       match files !! p with
       | Some text => Ok text
       | None => Throw (FsError "ENOENT")
       end |}.

Definition bare_host : host := disk_host ∅.

Definition foo_bar_host : host :=
  disk_host {[ "/app/models.yml" := "foo: bar" ]}.

Definition sample_host : host :=
  disk_host {[ "/srv/om/models.yml" := sample_yml ]}.

Definition semantic_only_host : host :=
  disk_host {[ "/srv/om/backend/models.yml"
               := "semantic:" +:+ nl +:+ "  openai: m1" ]}.

(** The file is there and cannot be read. *)
Definition unreadable_host : host :=
  {| __dirname := "/srv/om/backend/dist/core";
     process_cwd := "/srv/om/backend";
     existsSync := λ p, bool_decide (p = "/app/models.yml");
     readFileSync := λ _, Throw (FsError "EACCES") |}.

(** ** Line actions *)

(** What one line asks of the loop, read off the branches of the loop
    body: nothing, a new current section, or an entry for the current
    section. *)
Inductive line_action : Type :=
  | Skipped
  | OpensSection (key : string)
  | Records (key val : string).

Definition classify (line : string) : line_action :=
  let trim := JsString.trim line in
  if negb (JsString.truthy trim) || JsString.startsWith "#" trim then Skipped
  else
    let indent := JsString.search_non_space line in
    let '(key, val_parts) := JsString.split1 ":" trim in
    let val := JsString.trim (JsString.join ":" val_parts) in
    if (indent =? 0) && JsString.truthy val then Skipped
    else if indent =? 0 then OpensSection key
    else if JsString.truthy val then Records key val
    else Skipped.

(** The effect of an action on the loop state; an entry is dropped when
    there is no current section or its name is the empty string. *)
Definition perform (st : parse_state) (a : line_action) : parse_state :=
  match a with
  | Skipped => st
  | OpensSection key =>
      {| obj := <[key := ∅]> (obj st); cur_sec := Some key |}
  | Records key val =>
      match cur_sec st with
      | Some sec =>
          if JsString.truthy sec
          then {| obj := <[sec := <[key := val]> (default ∅ (obj st !! sec))]> (obj st);
                  cur_sec := cur_sec st |}
          else st
      | None => st
      end
  end.

(** The line is not a section header. *)
Definition opens_no_section (line : string) : Prop :=
  ∀ key, classify line ≠ OpensSection key.

(** The entries a run of lines records, later ones overriding earlier
    ones. *)
Definition record_entry (section : gmap string string) (line : string)
  : gmap string string :=
  match classify line with
  | Records key val => <[key := val]> section
  | _ => section
  end.

Definition block_entries (block : list string) : gmap string string :=
  foldl record_entry ∅ block.

(** White space only. *)
Definition blank (s : string) : Prop := JsString.trim s = "".

(** The line break of a text written with carriage returns. *)
Definition crlf : string := String "013" nl.

(** ** Call sequences *)

(** The answer of [get_model] as a function of the cached mapping. *)
Definition lookup_model (c : model_cfg) (sector provider : string) : string :=
  js_or_else
    (js_or (opt_chain c sector provider) (opt_chain c "semantic" provider))
    "nomic-embed-text".

(** A caller that asks for one model after the other, each time on the
    host as it is then. *)
Fixpoint get_models (calls : list (host * string * string)) : M (list string) :=
  match calls with
  | [] => ret []
  | (h, sector, provider) :: rest =>
      let* model := get_model h sector provider in
      let* models := get_models rest in
      ret (model :: models)
  end.

(** The shape of the trace a load leaves, with the mapping [c] it caches:
    one to three probes, then either the warning (and the defaults), or the
    read of the last path probed followed by the report of the sections
    found (and the parsed content), or the read followed by the error
    report (and the defaults). *)
Definition load_footprint (c : model_cfg) (evs : list event) : Prop :=
  ∃ probes tail,
    evs = (ExistsSync <$> probes) ++ tail
    ∧ (1 ≤ length probes ≤ 3)%nat
    ∧ ((tail = [ConsoleWarn "[MODELS] models.yml not found, using defaults"]
        ∧ c = get_defaults)
       ∨ (∃ p yml, tail = [ReadFileSync p; ConsoleLog p (size c)]
                   ∧ last probes = Some p
                   ∧ parse_yaml yml = Ok c)
       ∨ (∃ p e, tail = [ReadFileSync p; ConsoleError e]
                 ∧ last probes = Some p
                 ∧ c = get_defaults)).

(** The loop state right after a header for [key] at the top of a text. *)
Definition opened (key : string) : parse_state :=
  {| obj := {[key := ∅]}; cur_sec := Some key |}.

(** ** The runtime *)

(** No line has the key [__proto__]. *)
Definition proto_free (lines : list string) : Prop :=
  Forall (λ line, line_key line ≠ "__proto__") lines.

(** [name] reaches nothing of [Object.prototype]: it is not the accessor
    [__proto__] and names no data member. *)
Definition not_inherited (E : Node.engine) (name : string) : Prop :=
  name ≠ "__proto__" ∧ Node.proto_member E name = Node.Undefined.

(** A loop state of the dictionary reading, as the loop state of the
    program it stands for. *)
Definition runtime_state (st : parse_state) : Node.parse_state :=
  {| Node.obj := Node.plain (obj st); Node.cur_sec := cur_sec st |}.

(** The effect of a line action on the loop state of the program. *)
Definition runtime_perform (st : Node.parse_state) (a : line_action)
  : completion Node.parse_state :=
  match a with
  | Skipped => Ok st
  | OpensSection key =>
      Ok {| Node.obj := Node.set_section (Node.obj st) key;
            Node.cur_sec := Some key |}
  | Records key val =>
      match Node.cur_sec st with
      | Some sec =>
          if JsString.truthy sec then
            if decide (sec = "__proto__") then
              match Node.created_proto (Node.obj st) with
              | Some target =>
                  Ok {| Node.obj :=
                          {| Node.sections := Node.sections (Node.obj st);
                             Node.created_proto :=
                               Some (Node.set_entry target key val) |};
                        Node.cur_sec := Node.cur_sec st |}
              | None => Throw TypeError
              end
            else
              match Node.sections (Node.obj st) !! sec with
              | Some target =>
                  Ok {| Node.obj :=
                          {| Node.sections :=
                               <[sec := Node.set_entry target key val]>
                                 (Node.sections (Node.obj st));
                             Node.created_proto :=
                               Node.created_proto (Node.obj st) |};
                        Node.cur_sec := Node.cur_sec st |}
              | None => Throw TypeError
              end
          else Ok st
      | None => Ok st
      end
  end.

(** The key [__proto__] is no own property: not of the configuration
    object, not of a section, not of the created prototype. *)
Definition proto_key_absent (c : Node.model_cfg) : Prop :=
  Node.sections c !! "__proto__" = None
  ∧ (∀ sector section,
        Node.sections c !! sector = Some section →
        section !! "__proto__" = None)
  ∧ (∀ own, Node.created_proto c = Some own → own !! "__proto__" = None).

(** The host as it is when [process.cwd()] returns [cwd]. *)
Definition with_cwd (h : Node.host) (cwd : string) : host :=
  {| __dirname := Node.__dirname h;
     process_cwd := cwd;
     existsSync := Node.existsSync h;
     readFileSync := Node.readFileSync h |}.

(** The loop invariant of [Node.parse_yaml]: the object that [obj[cur_sec]]
    reads is there, and every recorded value is non-empty. *)
Definition runtime_inv (st : Node.parse_state) : Prop :=
  (∀ sec, Node.cur_sec st = Some sec → sec ≠ "__proto__" →
          is_Some (Node.sections (Node.obj st) !! sec))
  ∧ (Node.cur_sec st = Some "__proto__" →
     is_Some (Node.created_proto (Node.obj st)))
  ∧ values_nonempty (Node.sections (Node.obj st))
  ∧ (∀ own provider v,
        Node.created_proto (Node.obj st) = Some own →
        own !! provider = Some v → v ≠ "").

(** The state after some more events, with the cache cell untouched, and
    with the cache cell set. *)
Definition runtime_log (st : Node.process) (evs : list event) : Node.process :=
  {| Node.cfg := Node.cfg st; Node.trace := Node.trace st ++ evs |}.

Definition runtime_cache (c : Node.model_cfg) (st : Node.process)
    (evs : list event) : Node.process :=
  {| Node.cfg := Some c; Node.trace := Node.trace st ++ evs |}.

(** What a load with an empty cache cell leaves in the cell, and the
    events it adds, when [process.cwd()] returns [cwd]. *)
Definition runtime_load_outcome (h : Node.host) (cwd : string)
  : Node.model_cfg * list event :=
  let paths := candidate_paths (with_cwd h cwd) in
  let probes := ExistsSync <$> probed (with_cwd h cwd) paths in
  match List.find (Node.existsSync h) paths with
  | None =>
      (Node.get_defaults,
       probes ++ [ConsoleWarn "[MODELS] models.yml not found, using defaults"])
  | Some p =>
      match Node.readFileSync h p with
      | Throw e =>
          (Node.get_defaults, probes ++ [ReadFileSync p; ConsoleError e])
      | Ok yml =>
          match Node.parse_yaml yml with
          | Ok c =>
              (c, probes ++ [ReadFileSync p;
                             ConsoleLog p (size (Node.sections c))])
          | Throw e =>
              (Node.get_defaults, probes ++ [ReadFileSync p; ConsoleError e])
          end
      end
  end.

(** The process states that calls of the exported functions leave, from
    the start of the process, on any hosts, whether the calls return or
    throw. *)
Inductive runtime_reachable (E : Node.engine) : Node.process → Prop :=
  | runtime_reachable_start : runtime_reachable E Node.process_start
  | runtime_reachable_load_models h st :
      runtime_reachable E st →
      runtime_reachable E (Node.load_models h st).2
  | runtime_reachable_get_model h sector provider st :
      runtime_reachable E st →
      runtime_reachable E (Node.get_model E h sector provider st).2.

(** A caller that asks for one model after the other, each time on the
    host as it is then; the first call that throws ends the sequence. *)
Fixpoint runtime_get_models (E : Node.engine)
    (calls : list (Node.host * string * string)) : Node.M (list Node.value) :=
  match calls with
  | [] => Node.ret []
  | (h, sector, provider) :: rest =>
      Node.bind (Node.get_model E h sector provider) (λ model,
      Node.bind (runtime_get_models E rest) (λ models,
      Node.ret (model :: models)))
  end.

(** The answers of a sequence of lookups against one mapping, up to the
    first one that throws. *)
Fixpoint resolve_all (E : Node.engine) (c : Node.model_cfg)
    (calls : list (Node.host * string * string))
  : completion (list Node.value) :=
  match calls with
  | [] => Ok []
  | (_, sector, provider) :: rest =>
      match Node.resolve E c sector provider with
      | Ok model =>
          match resolve_all E c rest with
          | Ok models => Ok (model :: models)
          | Throw e => Throw e
          end
      | Throw e => Throw e
      end
  end.

(** An engine for the examples, cut down to the members they read.
    [Object.prototype.constructor] is the function [Object]; the other data
    members of [Object.prototype] are functions too.  A function is named
    by its handle, which is also its [name]; its [caller] and [arguments]
    are the accessors of [Function.prototype] that throw a [TypeError].
    Every function is truthy.  Elsewhere this engine answers [undefined]. *)
Definition sample_engine : Node.engine :=
  {| Node.proto_member := λ name,
       if decide (name = "constructor") then Node.Foreign "Object"
       else if bool_decide (name ∈ ["toString"; "toLocaleString"; "valueOf";
                                     "hasOwnProperty"; "isPrototypeOf";
                                     "propertyIsEnumerable";
                                     "__defineGetter__"; "__defineSetter__";
                                     "__lookupGetter__"; "__lookupSetter__"])
       then Node.Foreign name
       else Node.Undefined;
     Node.string_member := λ _ _, Ok Node.Undefined;
     Node.foreign_member := λ handle name,
       if bool_decide (name ∈ ["caller"; "arguments"]) then Throw TypeError
       else if decide (name = "name") then Ok (Node.Str handle)
       else Ok Node.Undefined;
     Node.foreign_truthy := λ _, true |}.

(** A host whose filesystem holds exactly [files], installed and run as
    [disk_host]. *)
Definition runtime_disk_host (files : gmap string string) : Node.host :=
  {| Node.__dirname := "/srv/om/backend/dist/core";
     Node.process_cwd := Ok "/srv/om/backend";
     Node.existsSync := λ p, bool_decide (is_Some (files !! p));
     Node.readFileSync := λ p,
       match files !! p with
       | Some text => Ok text
       | None => Throw (FsError "ENOENT")
       end |}.

(** The same, after the working directory has been removed: the files
    are there, [process.cwd()] throws. *)
Definition removed_cwd_host (files : gmap string string) : Node.host :=
  {| Node.__dirname := "/srv/om/backend/dist/core";
     Node.process_cwd := Throw (FsError "ENOENT");
     Node.existsSync := λ p, bool_decide (is_Some (files !! p));
     Node.readFileSync := λ p,
       match files !! p with
       | Some text => Ok text
       | None => Throw (FsError "ENOENT")
       end |}.

(** * Properties *)

(** Closed equations between evaluated terms are checked by the virtual
    machine. *)
Ltac by_evaluation :=
  repeat split;
  lazymatch goal with
  | |- ?x = ?y => vm_cast_no_check (eq_refl y)
  end.

(** ** Strings *)

Section Strings.

Implicit Types (s t : string) (sep : ascii) (parts : list string).

Lemma truthy_nonempty s : JsString.truthy s = true ↔ s ≠ "".
Proof. destruct s; simpl; split; intros; congruence. Qed.

Lemma append_cons (c : ascii) s t : String c s +:+ t = String c (s +:+ t).
Proof. reflexivity. Qed.

Lemma append_empty_l s : "" +:+ s = s.
Proof. reflexivity. Qed.

Lemma append_empty_r s : s +:+ "" = s.
Proof. induction s as [|c s IH]; [done|]. by rewrite append_cons, IH. Qed.

Lemma append_assoc s t (u : string) : (s +:+ t) +:+ u = s +:+ t +:+ u.
Proof. induction s as [|c s IH]; [done|]. by rewrite !append_cons, IH. Qed.

Lemma truthy_append s t :
  JsString.truthy (s +:+ t) = JsString.truthy s || JsString.truthy t.
Proof. by destruct s. Qed.

Lemma endsWithChar_app (c : ascii) s t :
  t ≠ "" → JsString.endsWithChar c (s +:+ t) = JsString.endsWithChar c t.
Proof.
  intros Ht. induction s as [|a s IH]; [done|].
  rewrite append_cons. simpl. rewrite IH.
  destruct (s +:+ t) eqn:Hst; [|done].
  destruct s; [by rewrite append_empty_l in Hst | by rewrite append_cons in Hst].
Qed.

Lemma split_cons_sep sep s :
  JsString.split sep (String sep s) = "" :: JsString.split sep s.
Proof.
  unfold JsString.split; simpl. destruct (JsString.split1 sep s).
  by rewrite decide_True.
Qed.

Lemma split_cons_other sep (c : ascii) s :
  c ≠ sep →
  JsString.split sep (String c s)
  = match JsString.split sep s with
    | h :: t => String c h :: t
    | [] => []
    end.
Proof.
  intros Hc. unfold JsString.split; simpl. destruct (JsString.split1 sep s).
  by rewrite decide_False.
Qed.

Lemma split_nonempty sep s : JsString.split sep s ≠ [].
Proof. unfold JsString.split. by destruct (JsString.split1 sep s). Qed.

(** Splitting distributes over a separator in the middle. *)
Lemma split_app sep s t :
  JsString.split sep (s +:+ String sep t)
  = JsString.split sep s ++ JsString.split sep t.
Proof.
  induction s as [|c s IH]; [by rewrite append_empty_l, split_cons_sep|].
  rewrite append_cons. destruct (decide (c = sep)) as [->|Hc].
  - by rewrite !split_cons_sep, IH.
  - rewrite !split_cons_other, IH by done.
    pose proof (split_nonempty sep s).
    by destruct (JsString.split sep s).
Qed.

(** [split] undoes [join] on pieces free of the separator. *)
Lemma split_join sep parts :
  parts ≠ [] → Forall (unbroken sep) parts →
  JsString.split sep (JsString.join (String sep "") parts) = parts.
Proof.
  induction parts as [|x rest IH]; [done|]. intros _ Hparts.
  apply Forall_cons in Hparts as [Hx Hrest].
  destruct rest as [|y rest]; [exact Hx|].
  change (JsString.join (String sep "") (x :: y :: rest))
    with (x +:+ String sep (JsString.join (String sep "") (y :: rest))).
  rewrite split_app, Hx, IH by done. done.
Qed.

Lemma join_truthy_last (glue : string) parts (last : string) :
  JsString.truthy last = true →
  JsString.truthy (JsString.join glue (parts ++ [last])) = true.
Proof.
  intros Hlast. induction parts as [|x rest IH]; [done|].
  change ((x :: rest) ++ [last]) with (x :: (rest ++ [last])).
  destruct (rest ++ [last]) as [|y tail] eqn:Hrest; [by destruct rest|].
  change (JsString.join glue (x :: y :: tail))
    with (x +:+ glue +:+ JsString.join glue (y :: tail)).
  by rewrite !truthy_append, IH, !orb_true_r.
Qed.

End Strings.

(** ** The parser: it never throws and records only non-empty values *)

Section ParserInvariant.

Lemma values_nonempty_empty : values_nonempty ∅.
Proof. intros sector section provider v H. by rewrite lookup_empty in H. Qed.

Lemma values_nonempty_new_section (c : model_cfg) key :
  values_nonempty c → values_nonempty (<[key := ∅]> c).
Proof.
  intros Hc sector section provider v Hs Hp.
  destruct (decide (key = sector)) as [->|Hne].
  - rewrite lookup_insert_eq in Hs. injection Hs as <-.
    by rewrite lookup_empty in Hp.
  - rewrite lookup_insert_ne in Hs by done. eauto.
Qed.

Lemma values_nonempty_record (c : model_cfg) sec section key val :
  values_nonempty c → c !! sec = Some section → val ≠ "" →
  values_nonempty (<[sec := <[key := val]> section]> c).
Proof.
  intros Hc Hsec Hval sector section' provider v Hs Hp.
  destruct (decide (sec = sector)) as [->|Hne].
  - rewrite lookup_insert_eq in Hs. injection Hs as <-.
    destruct (decide (key = provider)) as [->|Hnk].
    + rewrite lookup_insert_eq in Hp. congruence.
    + rewrite lookup_insert_ne in Hp by done. eauto.
  - rewrite lookup_insert_ne in Hs by done. eauto.
Qed.

Lemma parse_start_inv : parse_inv parse_start.
Proof. split; [intros sec H; discriminate | apply values_nonempty_empty]. Qed.

(** The iteration ended in [continue] or fell through every branch. *)
Local Ltac unchanged_state :=
  eexists; split; [reflexivity | assumption].

Lemma parse_line_total st line :
  parse_inv st → ∃ st', parse_line st line = Ok st' ∧ parse_inv st'.
Proof.
  intros Hinv. pose proof Hinv as [Hsec Hval]. unfold parse_line.
  destruct (negb _ || _); [unchanged_state |].
  destruct (JsString.split1 ":" (JsString.trim line)) as [key val_parts].
  set (val := JsString.trim (JsString.join ":" val_parts)).
  destruct (JsString.search_non_space line =? 0); simpl.
  - destruct (JsString.truthy val); [unchanged_state |].
    eexists; split; [done|]. split; simpl.
    + intros sec [= <-]. rewrite lookup_insert_eq. by eexists.
    + by apply values_nonempty_new_section.
  - destruct (cur_sec st) as [sec|] eqn:Hcur; [|unchanged_state ].
    destruct (JsString.truthy sec); simpl; [|unchanged_state ].
    destruct (JsString.truthy val) eqn:Hv; [|unchanged_state ].
    destruct (Hsec sec eq_refl) as [section Hsection]. rewrite Hsection.
    eexists; split; [done|]. split; simpl.
    + intros sec' [= <-]. rewrite lookup_insert_eq. by eexists.
    + apply values_nonempty_record; [done..|]. by apply truthy_nonempty.
Qed.

Lemma parse_lines_total lines : ∀ st,
  parse_inv st → ∃ st', parse_lines st lines = Ok st' ∧ parse_inv st'.
Proof.
  induction lines as [|line rest IH]; intros st Hst; simpl.
  - by exists st.
  - destruct (parse_line_total st line Hst) as (st1 & -> & Hst1). by apply IH.
Qed.

Lemma parse_yaml_total yml :
  ∃ c, parse_yaml yml = Ok c ∧ values_nonempty c.
Proof.
  unfold parse_yaml.
  destruct (parse_lines_total (JsString.split "010" yml) parse_start parse_start_inv)
    as (st & -> & _ & Hval).
  by exists (obj st).
Qed.

Lemma get_defaults_nonempty : values_nonempty get_defaults.
Proof.
  intros sector section provider v Hs Hp. unfold get_defaults in Hs.
  repeat (apply lookup_insert_Some in Hs as [[_ <-]|[_ Hs]];
    [repeat (apply lookup_insert_Some in Hp as [[_ <-]|[_ Hp]]; [done|]);
     by rewrite lookup_empty in Hp |]).
  by rewrite lookup_empty in Hs.
Qed.



End ParserInvariant.

(** ** The parser: what one section depends on *)

Section ParserSection.

Variable key : string.








End ParserSection.

(** ** Paths *)

Section Paths.

Lemma normalize_truthy path : JsString.truthy (NodePath.normalize path) = true.
Proof.
  unfold NodePath.normalize.
  destruct (JsString.truthy path); cbn [negb]; [|done].
  generalize (JsString.startsWith "/" path) (JsString.endsWithChar "/" path).
  intros is_absolute trailing.
  destruct (JsString.truthy (JsString.join _ _)) eqn:Hbody; cbn [negb].
  - rewrite !truthy_append, Hbody. by destruct is_absolute.
  - by destruct is_absolute, trailing.
Qed.

(** [join] never returns the empty string. *)
Lemma join_truthy a b : JsString.truthy (NodePath.join a b) = true.
Proof.
  unfold NodePath.join.
  destruct (JsString.truthy a), (JsString.truthy b);
    auto using normalize_truthy.
Qed.

Lemma candidate_paths_truthy h p :
  p ∈ candidate_paths h → JsString.truthy p = true.
Proof.
  unfold candidate_paths. rewrite !elem_of_cons, elem_of_nil.
  intros [->|[->|[->|[]]]]; auto using join_truthy.
Qed.

Lemma push_plain allow stack seg :
  plain_segment seg → NodePath.push_segment allow stack seg = seg :: stack.
Proof.
  intros (H1 & H2 & H3 & _). unfold NodePath.push_segment.
  by rewrite !decide_False.
Qed.

Lemma push_empty allow stack : NodePath.push_segment allow stack "" = stack.
Proof. reflexivity. Qed.

Lemma push_up allow top below :
  top ≠ ".." → NodePath.push_segment allow (top :: below) ".." = below.
Proof.
  intros Htop. unfold NodePath.push_segment.
  rewrite (decide_False (P := ".." = "")), (decide_False (P := ".." = ".")) by done.
  rewrite (decide_True (P := ".." = "..")) by done. by rewrite decide_False.
Qed.

Lemma fold_push_plain allow segs : ∀ stack,
  Forall plain_segment segs →
  fold_left (NodePath.push_segment allow) segs stack = rev segs ++ stack.
Proof.
  induction segs as [|seg rest IH]; intros stack Hsegs; [done|].
  apply Forall_cons in Hsegs as [Hseg Hrest].
  simpl. rewrite push_plain, IH by done. by rewrite <- app_assoc.
Qed.

Lemma rev_snoc {A} (l : list A) x : rev (x :: rev l) = l ++ [x].
Proof. simpl. by rewrite rev_involutive. Qed.

(** Normalizing an absolute path of plain segments followed by a relative
    tail: the tail's segments are walked from the stack of the plain
    ones. *)
Lemma normalize_absolute_tail segs tail :
  segs ≠ [] → Forall plain_segment segs → tail ≠ "" →
  NodePath.normalize (absolute_path segs +:+ "/" +:+ tail)
  = let stack :=
      fold_left (NodePath.push_segment false) (JsString.split "/" tail) (rev segs) in
    let body := JsString.join "/" (rev stack) in
    if JsString.truthy body
    then "/" +:+ body +:+ (if JsString.endsWithChar "/" tail then "/" else "")
    else "/".
Proof.
  intros Hne Hsegs Htail. unfold NodePath.normalize, absolute_path.
  rewrite append_assoc.
  change ("/" +:+ JsString.join "/" segs +:+ "/" +:+ tail)
    with (String "/" (JsString.join "/" segs +:+ String "/" tail)).
  cbn [JsString.truthy negb].
  replace (JsString.startsWith "/" (String "/" (JsString.join "/" segs +:+ String "/" tail)))
    with true by done.
  cbn [negb].
  rewrite split_cons_sep, split_app.
  rewrite (split_join "/" segs)
    by (try done; by eapply Forall_impl; [done|intros ? (_&_&_&?)]).
  unfold NodePath.normalize_segments.
  cbn [fold_left]. rewrite push_empty.
  rewrite fold_left_app, (fold_push_plain false segs [] Hsegs), app_nil_r.
  change (String "/" (JsString.join "/" segs +:+ String "/" tail))
    with (String "/" (JsString.join "/" segs) +:+ String "/" tail).
  rewrite endsWithChar_app by done.
  assert (JsString.endsWithChar "/" (String "/" tail)
          = JsString.endsWithChar "/" tail) as -> by (by destruct tail).
  cbn zeta. by destruct (JsString.truthy _).
Qed.

(** From a directory at depth three or more, [../../../models.yml] is the
    file [models.yml] three directories up. *)
Lemma join_three_up dirs a b c :
  Forall plain_segment (dirs ++ [a; b; c]) →
  NodePath.join (absolute_path (dirs ++ [a; b; c])) "../../../models.yml"
  = absolute_path (dirs ++ ["models.yml"]).
Proof.
  intros Hsegs. unfold NodePath.join.
  replace (JsString.truthy (absolute_path (dirs ++ [a; b; c]))) with true by done.
  cbn [JsString.truthy].
  rewrite normalize_absolute_tail; [|by destruct dirs|done|done].
  replace (JsString.split "/" "../../../models.yml")
    with ["..";"..";"..";"models.yml"] by done.
  replace (JsString.endsWithChar "/" "../../../models.yml") with false by done.
  apply Forall_app in Hsegs as [Hdirs Habc].
  apply Forall_cons in Habc as [Ha Habc].
  apply Forall_cons in Habc as [Hb Habc].
  apply Forall_cons in Habc as [Hc _].
  destruct Ha as (_ & _ & Ha & _), Hb as (_ & _ & Hb & _), Hc as (_ & _ & Hc & _).
  rewrite rev_app_distr. cbn [rev app fold_left].
  rewrite !push_up by done.
  rewrite push_plain by (by repeat split).
  cbn zeta. rewrite rev_snoc, join_truthy_last by done.
  unfold absolute_path. by rewrite append_empty_r.
Qed.

(** [models.yml] in a working directory. *)
Lemma join_in_directory dirs :
  Forall plain_segment dirs →
  NodePath.join (absolute_path dirs) "models.yml"
  = absolute_path (dirs ++ ["models.yml"]).
Proof.
  intros Hsegs. destruct dirs as [|d dirs]; [done|].
  unfold NodePath.join.
  replace (JsString.truthy (absolute_path (d :: dirs))) with true by done.
  cbn [JsString.truthy].
  rewrite normalize_absolute_tail by done.
  replace (JsString.split "/" "models.yml") with ["models.yml"] by done.
  replace (JsString.endsWithChar "/" "models.yml") with false by done.
  cbn [fold_left]. rewrite push_plain by (by repeat split).
  cbn zeta. rewrite rev_snoc, join_truthy_last by done.
  unfold absolute_path. by rewrite append_empty_r.
Qed.

End Paths.

(** ** The file locator and the load, characterised *)

Section Load.

Variable h : host.

Lemma log_events_nil st : log_events st [] = st.
Proof. destruct st. unfold log_events; simpl. by rewrite app_nil_r. Qed.

Lemma log_events_app st evs1 evs2 :
  log_events (log_events st evs1) evs2 = log_events st (evs1 ++ evs2).
Proof. unfold log_events; simpl. by rewrite app_assoc. Qed.

Lemma first_existing_spec paths : ∀ st,
  first_existing h paths st
  = (Ok (List.find (existsSync h) paths),
     log_events st (ExistsSync <$> probed h paths)).
Proof.
  induction paths as [|p rest IH]; intros st; simpl.
  - unfold ret. by rewrite log_events_nil.
  - unfold bind, emit; simpl. fold (log_events st [ExistsSync p]).
    destruct (existsSync h p); simpl.
    + done.
    + rewrite IH, log_events_app. done.
Qed.

Lemma find_models_file_spec st :
  find_models_file h st
  = (Ok (List.find (existsSync h) (candidate_paths h)),
     log_events st (ExistsSync <$> probed h (candidate_paths h))).
Proof. apply first_existing_spec. Qed.

Lemma find_some_elem_of {A} (f : A → bool) (l : list A) x :
  List.find f l = Some x → x ∈ l ∧ f x = true.
Proof.
  intros H. apply find_some in H as [Hin Hf]. split; [|done].
  by apply list_elem_of_In.
Qed.

Lemma located_file st p :
  (find_models_file h st).1 = Ok (Some p) →
  List.find (existsSync h) (candidate_paths h) = Some p.
Proof. rewrite find_models_file_spec. simpl. congruence. Qed.

(** With the cache cell set, [load_models] returns its content. *)
Lemma load_models_cached st c :
  cfg st = Some c → load_models h st = (Ok c, st).
Proof. intros H. unfold load_models, bind, read_cfg. by rewrite H. Qed.

(** With the cache cell empty, [load_models] returns and caches
    [load_outcome]. *)
Lemma load_models_fresh st :
  cfg st = None →
  load_models h st
  = (Ok (load_outcome h).1, cache (load_outcome h).1 st (load_outcome h).2).
Proof.
  intros Hnone. unfold load_models, bind at 1, read_cfg. rewrite Hnone.
  unfold bind at 1, find_models_file. rewrite first_existing_spec.
  unfold load_outcome.
  destruct (List.find _ _) as [p|] eqn:Hfind.
  - apply find_some_elem_of in Hfind as [Hin _].
    rewrite (candidate_paths_truthy h p Hin).
    unfold try_catch, bind, emit, lift, write_cfg, use_defaults, ret, bind,
      cache, log_events; simpl.
    destruct (readFileSync h p) as [yml|e]; simpl.
    + destruct (parse_yaml yml) as [c|e]; simpl;
        by rewrite <- !app_assoc.
    + by rewrite <- !app_assoc.
  - unfold bind, emit, use_defaults, write_cfg, ret, bind, cache, log_events;
      simpl.
    by rewrite <- !app_assoc.
Qed.

Lemma load_outcome_nonempty : values_nonempty (load_outcome h).1.
Proof.
  unfold load_outcome.
  destruct (List.find _ _) as [p|]; [|apply get_defaults_nonempty].
  destruct (readFileSync h p) as [yml|e]; [|apply get_defaults_nonempty].
  destruct (parse_yaml_total yml) as (c & -> & Hc). done.
Qed.

Lemma load_models_total st :
  ∃ c st', load_models h st = (Ok c, st') ∧ cfg st' = Some c.
Proof.
  destruct (cfg st) as [c|] eqn:Hcfg.
  - exists c, st. by rewrite (load_models_cached st c).
  - eexists _, _. by rewrite load_models_fresh.
Qed.


Lemma get_model_unfold sector provider st c st' :
  load_models h st = (Ok c, st') →
  get_model h sector provider st
  = (Ok (js_or_else
           (js_or (opt_chain c sector provider) (opt_chain c "semantic" provider))
           "nomic-embed-text"), st').
Proof. intros H. unfold get_model, bind. by rewrite H. Qed.

End Load.

(** ** The lookup on own entries *)

Lemma opt_chain_truthy (c : model_cfg) sector provider v :
  values_nonempty c → opt_chain c sector provider = Some v →
  JsString.truthy v = true.
Proof.
  unfold opt_chain. intros Hc H.
  destruct (c !! sector) as [section|] eqn:Hs; [|done].
  apply truthy_nonempty. eauto.
Qed.

Lemma opt_chain_bind (c : model_cfg) sector provider :
  opt_chain c sector provider = c !! sector ≫= (.!! provider).
Proof. unfold opt_chain. by destruct (c !! sector). Qed.

(** ** Runs on the concrete hosts *)

Example parse_sample : parse_yaml sample_yml = Ok sample_cfg.
Proof. by_evaluation. Qed.

Example bare_host_loads_defaults :
  load_models bare_host process_start
  = (Ok get_defaults,
     {| cfg := Some get_defaults;
        trace := [ ExistsSync "/srv/om/models.yml";
                   ExistsSync "/app/models.yml";
                   ExistsSync "/srv/om/backend/models.yml";
                   ConsoleWarn "[MODELS] models.yml not found, using defaults" ] |}).
Proof. by_evaluation. Qed.

Example sample_host_loads_file :
  load_models sample_host process_start
  = (Ok sample_cfg,
     {| cfg := Some sample_cfg;
        trace := [ ExistsSync "/srv/om/models.yml";
                   ReadFileSync "/srv/om/models.yml";
                   ConsoleLog "/srv/om/models.yml" 2 ] |}).
Proof. by_evaluation. Qed.

Example unreadable_host_loads_defaults :
  load_models unreadable_host process_start
  = (Ok get_defaults,
     {| cfg := Some get_defaults;
        trace := [ ExistsSync "/srv/om/models.yml";
                   ExistsSync "/app/models.yml";
                   ReadFileSync "/app/models.yml";
                   ConsoleError (FsError "EACCES") ] |}).
Proof. by_evaluation. Qed.

Example find_models_file_second :
  find_models_file foo_bar_host process_start
  = (Ok (Some "/app/models.yml"),
     {| cfg := None;
        trace := [ ExistsSync "/srv/om/models.yml";
                   ExistsSync "/app/models.yml" ] |}).
Proof. by_evaluation. Qed.

Example semantic_fallback :
  (get_model semantic_only_host "x" "openai" process_start).1 = Ok "m1"
  ∧ (get_model semantic_only_host "x" "gemini" process_start).1
    = Ok "nomic-embed-text"
  ∧ (get_model bare_host "episodic" "unknown-provider" process_start).1
    = Ok "nomic-embed-text".
Proof. by_evaluation. Qed.

Example repeated_header_example :
  parse_yaml (JsString.join nl ["a:"; "  x: 1"; "a:"; "  y: 2"])
  = Ok {[ "a" := {[ "y" := "2" ]} ]}.
Proof. by_evaluation. Qed.

Example empty_value_not_recorded :
  parse_yaml ("a:" +:+ nl +:+ "  x: " +:+ nl +:+ "  y: 2")
  = Ok {[ "a" := {[ "y" := "2" ]} ]}.
Proof. by_evaluation. Qed.

Example join_clamped_at_root :
  NodePath.join "/a/b" "../../../models.yml" = "/models.yml".
Proof. by_evaluation. Qed.

(** * The program on the runtime *)

(** ** The parser never throws and records only non-empty values *)

Section RuntimeParser.

Lemma runtime_start_inv : runtime_inv Node.parse_start.
Proof.
  split; [intros sec H; discriminate|]. split; [discriminate|].
  split; [apply values_nonempty_empty|]. intros own provider v H; discriminate.
Qed.

Lemma set_entry_nonempty (own : gmap string string) key val :
  (∀ provider v, own !! provider = Some v → v ≠ "") → val ≠ "" →
  ∀ provider v, Node.set_entry own key val !! provider = Some v → v ≠ "".
Proof.
  intros Hown Hval provider v. unfold Node.set_entry.
  case_decide; [apply Hown|].
  destruct (decide (key = provider)) as [->|Hne].
  - rewrite lookup_insert_eq. congruence.
  - rewrite lookup_insert_ne by done. apply Hown.
Qed.

Lemma values_nonempty_set_entry (c : gmap string (gmap string string))
    sec target key val :
  values_nonempty c → c !! sec = Some target → val ≠ "" →
  values_nonempty (<[sec := Node.set_entry target key val]> c).
Proof.
  intros Hc Hsec Hval sector section provider v Hs Hp.
  destruct (decide (sec = sector)) as [->|Hne].
  - rewrite lookup_insert_eq in Hs. injection Hs as <-.
    revert Hp. apply set_entry_nonempty; [|done]. intros p w Hw. by eapply Hc.
  - rewrite lookup_insert_ne in Hs by done. eauto.
Qed.

(** The iteration ended in [continue] or fell through every branch. *)
Local Ltac unchanged_state :=
  eexists; split; [reflexivity | assumption].

Lemma runtime_parse_line_total st line :
  runtime_inv st →
  ∃ st', Node.parse_line st line = Ok st' ∧ runtime_inv st'.
Proof.
  intros Hinv. pose proof Hinv as (Hsec & Hproto & Hval & Hpval).
  unfold Node.parse_line.
  destruct (negb _ || _); [unchanged_state|].
  destruct (JsString.split1 ":" (JsString.trim line)) as [key val_parts].
  set (val := JsString.trim (JsString.join ":" val_parts)).
  destruct (JsString.search_non_space line =? 0); simpl.
  - destruct (JsString.truthy val); [unchanged_state|].
    eexists; split; [done|]. unfold Node.set_section.
    case_decide as Hkey; repeat split; simpl.
    + intros sec [= <-] Hne. done.
    + intros _. by eexists.
    + done.
    + intros own provider v [= <-]. by rewrite lookup_empty.
    + intros sec [= <-] _. rewrite lookup_insert_eq. by eexists.
    + intros [= ->]. done.
    + by apply values_nonempty_new_section.
    + done.
  - destruct (Node.cur_sec st) as [sec|] eqn:Hcur; [|unchanged_state].
    destruct (JsString.truthy sec); simpl; [|unchanged_state].
    destruct (JsString.truthy val) eqn:Hv; [|unchanged_state].
    apply truthy_nonempty in Hv.
    case_decide as Hname.
    + destruct (Hproto (f_equal Some Hname)) as [target Htarget].
      rewrite Htarget. eexists; split; [done|]. repeat split; simpl.
      * intros sec' [= <-] Hne. done.
      * intros _. by eexists.
      * done.
      * intros own provider v [= <-]. apply set_entry_nonempty; [|done].
        intros p w. by apply Hpval.
    + destruct (Hsec sec eq_refl Hname) as [target Htarget].
      rewrite Htarget. eexists; split; [done|]. repeat split; simpl.
      * intros sec' [= <-] _. rewrite lookup_insert_eq. by eexists.
      * intros [= ->]. done.
      * by apply values_nonempty_set_entry.
      * done.
Qed.

Lemma runtime_parse_lines_total lines : ∀ st,
  runtime_inv st →
  ∃ st', Node.parse_lines st lines = Ok st' ∧ runtime_inv st'.
Proof.
  induction lines as [|line rest IH]; intros st Hst; simpl.
  - by exists st.
  - destruct (runtime_parse_line_total st line Hst) as (st1 & -> & Hst1).
    by apply IH.
Qed.

Lemma runtime_parse_yaml_total yml :
  ∃ c, Node.parse_yaml yml = Ok c
       ∧ values_nonempty (Node.sections c)
       ∧ ∀ own provider v,
           Node.created_proto c = Some own → own !! provider = Some v → v ≠ "".
Proof.
  unfold Node.parse_yaml.
  destruct (runtime_parse_lines_total (JsString.split "010" yml)
              Node.parse_start runtime_start_inv)
    as (st & -> & _ & _ & Hval & Hpval).
  by exists (Node.obj st).
Qed.

End RuntimeParser.

(** ** The file locator and the load, characterised *)

Section RuntimeLoad.

Variable h : Node.host.

Lemma runtime_log_nil st : runtime_log st [] = st.
Proof. destruct st. unfold runtime_log; simpl. by rewrite app_nil_r. Qed.

Lemma runtime_log_app st evs1 evs2 :
  runtime_log (runtime_log st evs1) evs2 = runtime_log st (evs1 ++ evs2).
Proof. unfold runtime_log; simpl. by rewrite app_assoc. Qed.

Lemma runtime_first_existing_spec cwd paths : ∀ st,
  Node.first_existing h paths st
  = (Ok (List.find (Node.existsSync h) paths),
     runtime_log st (ExistsSync <$> probed (with_cwd h cwd) paths)).
Proof.
  induction paths as [|p rest IH]; intros st; simpl.
  - unfold Node.ret. by rewrite runtime_log_nil.
  - unfold Node.bind, Node.emit; simpl. fold (runtime_log st [ExistsSync p]).
    destruct (Node.existsSync h p); simpl.
    + done.
    + rewrite IH, runtime_log_app. done.
Qed.

(** When [process.cwd()] returns, the probes run over the candidate
    paths. *)
Lemma runtime_find_models_file_returns cwd st :
  Node.process_cwd h = Ok cwd →
  Node.find_models_file h st
  = (Ok (List.find (Node.existsSync h) (candidate_paths (with_cwd h cwd))),
     runtime_log st
       (ExistsSync <$> probed (with_cwd h cwd) (candidate_paths (with_cwd h cwd)))).
Proof.
  intros Hcwd. unfold Node.find_models_file, Node.bind at 1, Node.lift.
  rewrite Hcwd. apply runtime_first_existing_spec.
Qed.

(** When [process.cwd()] throws, nothing is probed. *)
Lemma runtime_find_models_file_throws e st :
  Node.process_cwd h = Throw e →
  Node.find_models_file h st = (Throw e, st).
Proof.
  intros Hcwd. unfold Node.find_models_file, Node.bind, Node.lift.
  by rewrite Hcwd.
Qed.

Lemma runtime_load_models_cached st c :
  Node.cfg st = Some c → Node.load_models h st = (Ok c, st).
Proof.
  intros H. unfold Node.load_models, Node.bind, Node.read_cfg. by rewrite H.
Qed.

Lemma runtime_load_models_fresh cwd st :
  Node.cfg st = None → Node.process_cwd h = Ok cwd →
  Node.load_models h st
  = (Ok (runtime_load_outcome h cwd).1,
     runtime_cache (runtime_load_outcome h cwd).1 st
       (runtime_load_outcome h cwd).2).
Proof.
  intros Hnone Hcwd. unfold Node.load_models, Node.bind at 1, Node.read_cfg.
  rewrite Hnone. unfold Node.bind at 1.
  rewrite (runtime_find_models_file_returns cwd st Hcwd).
  unfold runtime_load_outcome.
  destruct (List.find _ _) as [p|] eqn:Hfind.
  - apply find_some_elem_of in Hfind as [Hin _].
    rewrite (candidate_paths_truthy (with_cwd h cwd) p Hin).
    unfold Node.try_catch, Node.bind, Node.emit, Node.lift, Node.write_cfg,
      Node.use_defaults, Node.ret, Node.bind, runtime_cache, runtime_log; simpl.
    destruct (Node.readFileSync h p) as [yml|e]; simpl.
    + destruct (Node.parse_yaml yml) as [c|e]; simpl;
        by rewrite <- !app_assoc.
    + by rewrite <- !app_assoc.
  - unfold Node.bind, Node.emit, Node.use_defaults, Node.write_cfg, Node.ret,
      Node.bind, runtime_cache, runtime_log; simpl.
    by rewrite <- !app_assoc.
Qed.

(** With the cache cell empty, the exception of [process.cwd()] leaves
    [load_models]: no probe, no diagnostic, and the cell stays empty. *)
Lemma runtime_load_models_throws e st :
  Node.cfg st = None → Node.process_cwd h = Throw e →
  Node.load_models h st = (Throw e, st).
Proof.
  intros Hnone Hcwd. unfold Node.load_models, Node.bind at 1, Node.read_cfg.
  rewrite Hnone. unfold Node.bind at 1.
  by rewrite (runtime_find_models_file_throws e st Hcwd).
Qed.

Lemma runtime_get_model_unfold E sector provider st c st' :
  Node.load_models h st = (Ok c, st') →
  Node.get_model E h sector provider st
  = (Node.resolve E c sector provider, st').
Proof. intros H. unfold Node.get_model, Node.bind, Node.lift. by rewrite H. Qed.

Lemma runtime_get_model_cached E sector provider st c :
  Node.cfg st = Some c →
  Node.get_model E h sector provider st
  = (Node.resolve E c sector provider, st).
Proof.
  intros Hcfg. apply runtime_get_model_unfold. by apply runtime_load_models_cached.
Qed.

Lemma runtime_get_model_throws E sector provider e st :
  Node.cfg st = None → Node.process_cwd h = Throw e →
  Node.get_model E h sector provider st = (Throw e, st).
Proof.
  intros Hnone Hcwd. unfold Node.get_model, Node.bind.
  by rewrite (runtime_load_models_throws e st Hnone Hcwd).
Qed.

(** A load that returns leaves what it returns in the cache cell. *)
Lemma runtime_load_models_returns st :
  (Node.cfg st = None → ∃ cwd, Node.process_cwd h = Ok cwd) →
  ∃ c st', Node.load_models h st = (Ok c, st') ∧ Node.cfg st' = Some c.
Proof.
  intros Hcwd. destruct (Node.cfg st) as [c|] eqn:Hcfg.
  - exists c, st. by rewrite (runtime_load_models_cached st c).
  - destruct (Hcwd eq_refl) as [cwd Hok].
    eexists _, _. by rewrite (runtime_load_models_fresh cwd).
Qed.

Lemma runtime_load_models_no_file cwd st :
  Node.cfg st = None ∨ Node.cfg st = Some Node.get_defaults →
  Node.process_cwd h = Ok cwd →
  Forall (λ p, Node.existsSync h p = false) (candidate_paths (with_cwd h cwd)) →
  ∃ st', Node.load_models h st = (Ok Node.get_defaults, st')
         ∧ Node.cfg st' = Some Node.get_defaults.
Proof.
  intros [Hnone|Hsome] Hcwd Habsent.
  - rewrite (runtime_load_models_fresh cwd) by done.
    unfold runtime_load_outcome.
    destruct (List.find _ _) as [p|] eqn:Hfind; [|by eexists].
    apply find_some_elem_of in Hfind as [Hin Hp].
    rewrite Forall_forall in Habsent. rewrite (Habsent p Hin) in Hp. done.
  - exists st. split; [by apply runtime_load_models_cached|done].
Qed.

End RuntimeLoad.

(** ** The lookup on an object without a created prototype *)

Section RuntimeLookup.

Variable E : Node.engine.

Lemma get_plain_own (m : gmap string (gmap string string)) sector section :
  sector ≠ "__proto__" → m !! sector = Some section →
  Node.get E (Node.plain m) sector = Node.Plain section.
Proof.
  intros Hne Hs. unfold Node.get. rewrite decide_False by done.
  cbn [Node.plain Node.sections]. by rewrite Hs.
Qed.

Lemma get_plain_inherited (m : gmap string (gmap string string)) sector :
  sector ≠ "__proto__" → m !! sector = None →
  Node.get E (Node.plain m) sector = Node.proto_member E sector.
Proof.
  intros Hne Hs. unfold Node.get. rewrite decide_False by done.
  cbn [Node.plain Node.sections Node.created_proto]. by rewrite Hs.
Qed.

(** For names that reach nothing of [Object.prototype], [c[sector]?.[provider]]
    is the own entry or [undefined]. *)
Lemma member_get_plain (m : gmap string (gmap string string)) sector provider :
  not_inherited E sector → not_inherited E provider →
  Node.member E (Node.get E (Node.plain m) sector) provider
  = Ok (match opt_chain m sector provider with
        | Some v => Node.Str v
        | None => Node.Undefined
        end).
Proof.
  intros [Hs Hsector] [Hp Hprovider]. unfold opt_chain.
  destruct (m !! sector) as [section|] eqn:Hm.
  - rewrite (get_plain_own m sector section) by done.
    cbn [Node.member]. rewrite decide_False by done.
    destruct (section !! provider); [done|]. by rewrite Hprovider.
  - rewrite get_plain_inherited by done. by rewrite Hsector.
Qed.

Lemma runtime_resolve_plain (m : gmap string (gmap string string)) sector provider :
  not_inherited E sector → not_inherited E provider →
  not_inherited E "semantic" →
  Node.resolve E (Node.plain m) sector provider
  = Ok (Node.Str (lookup_model m sector provider)).
Proof.
  intros Hsector Hprovider Hsemantic. unfold Node.resolve, lookup_model.
  rewrite !member_get_plain by done.
  unfold js_or_else, js_or.
  destruct (opt_chain m sector provider) as [own|]; cbn [Node.truthy].
  - destruct (JsString.truthy own) eqn:Hown; [by rewrite Hown|].
    destruct (opt_chain m "semantic" provider) as [fb|]; cbn [Node.truthy];
      [|done].
    by destruct (JsString.truthy fb) eqn:Hfb; rewrite ?Hfb.
  - destruct (opt_chain m "semantic" provider) as [fb|]; cbn [Node.truthy];
      [|done].
    by destruct (JsString.truthy fb) eqn:Hfb; rewrite ?Hfb.
Qed.

End RuntimeLookup.

(** * The resolver's contract *)

(** The statements on [Node] definitions are about the program on the
    runtime; the others are stated on the dictionary reading. *)

(** C1. [get_model] does not stop at the entries of the loaded mapping:
    [cfg[sector]?.[provider]] follows the prototype chain.  When the loaded
    mapping has no section [constructor], the first lookup of
    [get_model("constructor", "name")] reaches the function
    [Object.prototype.constructor] and answers with its name, the string
    ["Object"]: neither the [semantic] entry for [name], when there is
    one, nor the literal ["nomic-embed-text"], which the three-tier chain
    over the mapping gives when there is none. *)
Theorem get_model_answers_inherited_member E h st st' mapping fn :
  Node.load_models h st = (Ok (Node.plain mapping), st') →
  mapping !! "constructor" = None →
  Node.proto_member E "constructor" = Node.Foreign fn →
  Node.foreign_member E fn "name" = Ok (Node.Str "Object") →
  Node.get_model E h "constructor" "name" st = (Ok (Node.Str "Object"), st').
Proof.
  intros Hload Hsection Hconstructor Hname.
  rewrite (runtime_get_model_unfold h E "constructor" "name" st _ st' Hload).
  unfold Node.resolve.
  rewrite get_plain_inherited by done. rewrite Hconstructor.
  cbn [Node.member]. by rewrite Hname.
Qed.

Lemma get_model_answers_inherited_member_witness :
  Node.load_models (runtime_disk_host ∅) Node.process_start
  = (Ok (Node.plain get_defaults),
     {| Node.cfg := Some Node.get_defaults;
        Node.trace :=
          [ ExistsSync "/srv/om/models.yml";
            ExistsSync "/app/models.yml";
            ExistsSync "/srv/om/backend/models.yml";
            ConsoleWarn "[MODELS] models.yml not found, using defaults" ] |})
  ∧ get_defaults !! "constructor" = None
  ∧ get_defaults !! "semantic" ≫= (.!! "name") = None
  ∧ Node.get_model sample_engine (runtime_disk_host ∅) "constructor" "name"
      Node.process_start
    = (Ok (Node.Str "Object"),
       {| Node.cfg := Some Node.get_defaults;
          Node.trace :=
            [ ExistsSync "/srv/om/models.yml";
              ExistsSync "/app/models.yml";
              ExistsSync "/srv/om/backend/models.yml";
              ConsoleWarn "[MODELS] models.yml not found, using defaults" ] |}).
Proof.
  assert (Node.load_models (runtime_disk_host ∅) Node.process_start
          = (Ok (Node.plain get_defaults),
             {| Node.cfg := Some Node.get_defaults;
                Node.trace :=
                  [ ExistsSync "/srv/om/models.yml";
                    ExistsSync "/app/models.yml";
                    ExistsSync "/srv/om/backend/models.yml";
                    ConsoleWarn "[MODELS] models.yml not found, using defaults" ] |}))
    as Hload by by_evaluation.
  assert (get_defaults !! "constructor" = None) as Hsection by by_evaluation.
  assert (get_defaults !! "semantic" ≫= (.!! "name") = None) as Hsemantic
    by by_evaluation.
  split; [exact Hload|]. split; [exact Hsection|]. split; [exact Hsemantic|].
  exact (get_model_answers_inherited_member sample_engine (runtime_disk_host ∅)
           Node.process_start _ get_defaults "Object"
           Hload Hsection eq_refl eq_refl).
Defined.

(** C2, as stated, fails: with the located file holding the single line
    [foo: bar], [load_models] returns the empty mapping, which is not the
    defaults table. *)
Lemma top_level_scalar_file_not_defaults :
  (find_models_file foo_bar_host process_start).1 = Ok (Some "/app/models.yml")
  ∧ readFileSync foo_bar_host "/app/models.yml" = Ok "foo: bar"
  ∧ (load_models foo_bar_host process_start).1 = Ok ∅
  ∧ (load_models foo_bar_host process_start).1 ≠ Ok get_defaults.
Proof.
  assert ((load_models foo_bar_host process_start).1 = Ok ∅) as Hload
    by by_evaluation.
  split; [by_evaluation|]. split; [by_evaluation|]. split; [exact Hload|].
  rewrite Hload. intros Heq.
  apply (f_equal (λ r : completion model_cfg,
                    match r with
                    | Ok c => c !! "semantic" ≫= (.!! "openai")
                    | Throw _ => None
                    end)) in Heq.
  vm_compute in Heq. discriminate.
Qed.

(** C2, amended.  With an empty cache cell and a located file: when the
    read throws, [load_models] returns the defaults table and caches it;
    when the read succeeds, [load_models] returns what [parse_yaml] makes
    of the content and caches that.  A top-level line carrying a value is
    skipped by the parser, so the content [foo: bar] gives the empty
    mapping. *)
Theorem load_models_located_file h st p :
  cfg st = None →
  (find_models_file h st).1 = Ok (Some p) →
  (∀ e, readFileSync h p = Throw e →
        (load_models h st).1 = Ok get_defaults
        ∧ cfg (load_models h st).2 = Some get_defaults)
  ∧ (∀ yml, readFileSync h p = Ok yml →
        ∃ c, parse_yaml yml = Ok c
             ∧ (load_models h st).1 = Ok c
             ∧ cfg (load_models h st).2 = Some c)
  ∧ parse_yaml "foo: bar" = Ok ∅.
Proof.
  intros Hnone Hfound. apply located_file in Hfound.
  rewrite load_models_fresh by done. unfold load_outcome. rewrite Hfound.
  split; [|split].
  - intros e ->. done.
  - intros yml ->. destruct (parse_yaml_total yml) as (c & Hc & _).
    exists c. by rewrite Hc.
  - by_evaluation.
Qed.

Lemma load_models_located_file_witness :
  cfg process_start = None
  ∧ (find_models_file foo_bar_host process_start).1 = Ok (Some "/app/models.yml")
  ∧ ∃ c, parse_yaml "foo: bar" = Ok c
         ∧ (load_models foo_bar_host process_start).1 = Ok c
         ∧ cfg (load_models foo_bar_host process_start).2 = Some c.
Proof.
  assert (cfg process_start = None) as Hnone by reflexivity.
  assert ((find_models_file foo_bar_host process_start).1
          = Ok (Some "/app/models.yml")) as Hfound by by_evaluation.
  split; [exact Hnone|]. split; [exact Hfound|].
  apply (load_models_located_file foo_bar_host process_start
           "/app/models.yml" Hnone Hfound).
  by_evaluation.
Defined.



(** C4. The five-line sample parses to exactly the two sections with one
    entry each.  A line whose trimmed content is empty or starts with [#]
    leaves the loop state as it is. *)
Theorem parse_yaml_sample :
  sample_yml
  = "semantic:" +:+ nl +:+ "  openai: custom-model-A" +:+ nl +:+
    "# comment line" +:+ nl +:+ "episodic:" +:+ nl +:+
    "  local: custom-model-B"
  ∧ parse_yaml sample_yml
    = Ok (<["semantic" := {["openai" := "custom-model-A"]}]>
            {["episodic" := {["local" := "custom-model-B"]}]})
  ∧ (∀ st line,
        JsString.trim line = ""
        ∨ JsString.startsWith "#" (JsString.trim line) = true →
        parse_line st line = Ok st).
Proof.
  split; [reflexivity|]. split; [by_evaluation|].
  intros st line Hskip. unfold parse_line.
  destruct Hskip as [-> | ->]; [done|]. by rewrite orb_true_r.
Qed.

Lemma parse_yaml_sample_witness :
  JsString.startsWith "#" (JsString.trim "  # comment line") = true
  ∧ parse_line parse_start "  # comment line" = Ok parse_start.
Proof.
  assert (JsString.startsWith "#" (JsString.trim "  # comment line") = true)
    as Hcomment by reflexivity.
  split; [exact Hcomment|].
  apply (proj2 (proj2 parse_yaml_sample)). right. exact Hcomment.
Defined.



(** C6. An exception does escape [load_models] and [get_model]:
    [process.cwd()] is called while the list of candidate paths is built,
    before the first probe and outside the [try].  When it throws (the
    working directory has been removed) and the cache cell is empty, both
    functions complete by throwing that error, whatever files exist and
    whatever is asked for; nothing is probed, nothing is reported, and the
    cache cell stays empty, so a next call on such a host throws again. *)
Theorem cwd_exception_escapes E h st e sector provider :
  Node.cfg st = None →
  Node.process_cwd h = Throw e →
  Node.load_models h st = (Throw e, st)
  ∧ Node.get_model E h sector provider st = (Throw e, st).
Proof.
  intros Hnone Hcwd. split.
  - by apply runtime_load_models_throws.
  - by apply runtime_get_model_throws.
Qed.

Lemma cwd_exception_escapes_witness :
  Node.existsSync (removed_cwd_host {[ "/app/models.yml" := sample_yml ]})
    "/app/models.yml" = true
  ∧ Node.load_models (removed_cwd_host {[ "/app/models.yml" := sample_yml ]})
      Node.process_start
    = (Throw (FsError "ENOENT"), Node.process_start)
  ∧ Node.get_model sample_engine
      (removed_cwd_host {[ "/app/models.yml" := sample_yml ]})
      "semantic" "openai" Node.process_start
    = (Throw (FsError "ENOENT"), Node.process_start).
Proof.
  split; [reflexivity|].
  exact (cwd_exception_escapes sample_engine
           (removed_cwd_host {[ "/app/models.yml" := sample_yml ]})
           Node.process_start (FsError "ENOENT") "semantic" "openai"
           eq_refl eq_refl).
Defined.

(** C7. [find_models_file] does not always return the first candidate
    that exists: the third candidate is computed before the first is
    probed, and the call of [process.cwd()] it needs may throw.  Then
    [find_models_file] completes by throwing that error, with no path
    probed, also when the first or the second candidate exists. *)
Theorem find_models_file_throws_with_cwd h st e :
  Node.process_cwd h = Throw e →
  (Node.find_models_file h st).1 = Throw e
  ∧ Node.trace (Node.find_models_file h st).2 = Node.trace st
  ∧ Node.cfg (Node.find_models_file h st).2 = Node.cfg st.
Proof.
  intros Hcwd. by rewrite (runtime_find_models_file_throws h e st Hcwd).
Qed.

Lemma find_models_file_throws_with_cwd_witness :
  Node.existsSync (removed_cwd_host {[ "/srv/om/models.yml" := sample_yml ]})
    (NodePath.join
       (Node.__dirname (removed_cwd_host {[ "/srv/om/models.yml" := sample_yml ]}))
       "../../../models.yml") = true
  ∧ (Node.find_models_file
       (removed_cwd_host {[ "/srv/om/models.yml" := sample_yml ]})
       Node.process_start).1
    = Throw (FsError "ENOENT")
  ∧ Node.trace
      (Node.find_models_file
         (removed_cwd_host {[ "/srv/om/models.yml" := sample_yml ]})
         Node.process_start).2
    = Node.trace Node.process_start
  ∧ Node.cfg
      (Node.find_models_file
         (removed_cwd_host {[ "/srv/om/models.yml" := sample_yml ]})
         Node.process_start).2
    = Node.cfg Node.process_start.
Proof.
  split; [by_evaluation|].
  exact (find_models_file_throws_with_cwd
           (removed_cwd_host {[ "/srv/om/models.yml" := sample_yml ]})
           Node.process_start (FsError "ENOENT") eq_refl).
Defined.

(** C8. [get_provider_config] returns the empty object for every
    provider. *)
Theorem get_provider_config_empty provider :
  get_provider_config provider = ∅.
Proof. reflexivity. Qed.



(** C10. [get_model] does not always return a string: when the section of
    the loaded mapping has no entry for the provider, the lookup goes on to
    [Object.prototype].  With a section [episodic] that lists no provider
    [constructor], [get_model("episodic", "constructor")] returns the
    function [Object.prototype.constructor], which is truthy and ends the
    [||] chain; what is returned is no string, empty or not. *)
Theorem get_model_answers_function E h st st' mapping section fn :
  Node.load_models h st = (Ok (Node.plain mapping), st') →
  mapping !! "episodic" = Some section →
  section !! "constructor" = None →
  Node.proto_member E "constructor" = Node.Foreign fn →
  Node.foreign_truthy E fn = true →
  Node.get_model E h "episodic" "constructor" st = (Ok (Node.Foreign fn), st')
  ∧ ∀ model, (Node.get_model E h "episodic" "constructor" st).1
             ≠ Ok (Node.Str model).
Proof.
  intros Hload Hsection Hentry Hconstructor Htruthy.
  assert (Node.get_model E h "episodic" "constructor" st
          = (Ok (Node.Foreign fn), st')) as Hget.
  { rewrite (runtime_get_model_unfold h E "episodic" "constructor" st _ st' Hload).
    unfold Node.resolve.
    rewrite (get_plain_own E mapping "episodic" section) by done.
    cbn [Node.member]. rewrite decide_False by done.
    rewrite Hentry, Hconstructor. cbn [Node.truthy]. by rewrite Htruthy. }
  split; [exact Hget|]. intros model. rewrite Hget. cbn [fst]. discriminate.
Qed.

Lemma get_model_answers_function_witness :
  Node.load_models (runtime_disk_host ∅) Node.process_start
  = (Ok (Node.plain get_defaults),
     {| Node.cfg := Some Node.get_defaults;
        Node.trace :=
          [ ExistsSync "/srv/om/models.yml";
            ExistsSync "/app/models.yml";
            ExistsSync "/srv/om/backend/models.yml";
            ConsoleWarn "[MODELS] models.yml not found, using defaults" ] |})
  ∧ (Node.get_model sample_engine (runtime_disk_host ∅) "episodic" "constructor"
       Node.process_start).1
    = Ok (Node.Foreign "Object").
Proof.
  assert (Node.load_models (runtime_disk_host ∅) Node.process_start
          = (Ok (Node.plain get_defaults),
             {| Node.cfg := Some Node.get_defaults;
                Node.trace :=
                  [ ExistsSync "/srv/om/models.yml";
                    ExistsSync "/app/models.yml";
                    ExistsSync "/srv/om/backend/models.yml";
                    ConsoleWarn "[MODELS] models.yml not found, using defaults" ] |}))
    as Hload by by_evaluation.
  assert (get_defaults !! "episodic"
          = Some (<["ollama" := "nomic-embed-text"]>
                  (<["openai" := "text-embedding-3-small"]>
                  (<["gemini" := "gemini-embedding-001"]>
                  (<["aws" := "amazon.titan-embed-text-v2:0"]>
                  (<["local" := "all-MiniLM-L6-v2"]> ∅))))))
    as Hsection by by_evaluation.
  split; [exact Hload|].
  exact (f_equal fst
           (proj1 (get_model_answers_function sample_engine (runtime_disk_host ∅)
                     Node.process_start _ get_defaults _ "Object"
                     Hload Hsection eq_refl eq_refl eq_refl))).
Defined.

(** * Further properties of the parser *)

(** ** Lines as actions *)

Section LineActions.

Lemma parse_line_perform st line :
  parse_inv st → parse_line st line = Ok (perform st (classify line)).
Proof.
  intros [Hsec _]. unfold parse_line, classify.
  destruct (negb _ || _); [done|].
  destruct (JsString.split1 ":" (JsString.trim line)) as [key val_parts].
  destruct (JsString.search_non_space line =? 0); cbn [andb].
  - by destruct (JsString.truthy _).
  - destruct (JsString.truthy (JsString.trim _)) eqn:Hval; cbn [perform].
    + destruct (cur_sec st) as [sec|] eqn:Hcur; [|done].
      rewrite andb_true_r. destruct (JsString.truthy sec); [|done].
      by destruct (Hsec sec eq_refl) as [section ->].
    + destruct (cur_sec st); [|done]. by rewrite andb_false_r.
Qed.

Lemma perform_inv st line : parse_inv st → parse_inv (perform st (classify line)).
Proof.
  intros Hinv. destruct (parse_line_total st line Hinv) as (st' & Hline & Hinv').
  rewrite parse_line_perform in Hline by done. by injection Hline as ->.
Qed.

Lemma foldl_perform_inv lines : ∀ st,
  parse_inv st → parse_inv (foldl (λ st line, perform st (classify line)) st lines).
Proof.
  induction lines as [|line rest IH]; intros st Hinv; [done|].
  simpl. by apply IH, perform_inv.
Qed.

(** The loop is the left fold of the line actions. *)
Lemma parse_lines_perform lines : ∀ st,
  parse_inv st →
  parse_lines st lines
  = Ok (foldl (λ st line, perform st (classify line)) st lines).
Proof.
  induction lines as [|line rest IH]; intros st Hinv; [done|].
  simpl. rewrite parse_line_perform by done. by apply IH, perform_inv.
Qed.

Lemma parse_yaml_perform yml :
  parse_yaml yml
  = Ok (obj (foldl (λ st line, perform st (classify line)) parse_start
               (JsString.split "010" yml))).
Proof.
  unfold parse_yaml. by rewrite parse_lines_perform by apply parse_start_inv.
Qed.

Lemma classify_header line key :
  header_line line key ↔ classify line = OpensSection key.
Proof.
  unfold header_line, classify. split.
  - intros (-> & -> & -> & val_parts & -> & ->). done.
  - destruct (JsString.truthy (JsString.trim line)); [|done].
    destruct (JsString.startsWith _ _); [done|].
    destruct (JsString.split1 _ _) as [k val_parts]. cbn [negb orb].
    destruct (_ =? 0) eqn:Hindent; cbn [andb].
    + destruct (JsString.truthy (JsString.trim _)) eqn:Hval; [done|].
      intros [= ->]. apply Z.eqb_eq in Hindent.
      do 3 (split; [done|]). exists val_parts. split; [done|].
      by destruct (JsString.trim (JsString.join ":" val_parts)).
    + by destruct (JsString.truthy _).
Qed.

Lemma classify_records_nonempty line key val :
  classify line = Records key val → val ≠ "".
Proof.
  unfold classify. destruct (negb _ || _); [done|].
  destruct (JsString.split1 _ _) as [k val_parts].
  destruct (_ =? 0); cbn [andb].
  - by destruct (JsString.truthy _).
  - destruct (JsString.truthy (JsString.trim _)) eqn:Hval; [|done].
    intros [= _ <-]. by apply truthy_nonempty.
Qed.

(** Without a current section, lines that open none change nothing. *)
Lemma foldl_perform_no_section lines : ∀ st,
  cur_sec st = None → Forall opens_no_section lines →
  foldl (λ st line, perform st (classify line)) st lines = st.
Proof.
  induction lines as [|line rest IH]; intros st Hcur Hlines; [done|].
  apply Forall_cons in Hlines as [Hline Hrest]. simpl.
  assert (perform st (classify line) = st) as ->; [|by apply IH].
  destruct (classify line) as [|key|key val] eqn:Hc; [done| |].
  - by destruct (Hline key).
  - simpl. by rewrite Hcur.
Qed.

(** Within a section with a non-empty name, lines that open no section
    add their entries to it. *)
Lemma foldl_perform_block key (o : model_cfg) block : ∀ section,
  key ≠ "" → Forall opens_no_section block →
  foldl (λ st line, perform st (classify line))
    {| obj := <[key := section]> o; cur_sec := Some key |} block
  = {| obj := <[key := foldl record_entry section block]> o;
       cur_sec := Some key |}.
Proof.
  induction block as [|line rest IH]; intros section Hkey Hblock; [done|].
  apply Forall_cons in Hblock as [Hline Hrest]. simpl.
  assert (perform {| obj := <[key := section]> o; cur_sec := Some key |}
            (classify line)
          = {| obj := <[key := record_entry section line]> o;
               cur_sec := Some key |}) as ->; [|by apply IH].
  unfold record_entry.
  destruct (classify line) as [|k|k v] eqn:Hc; [done| |].
  - by destruct (Hline k).
  - simpl. apply truthy_nonempty in Hkey. rewrite Hkey.
    by rewrite lookup_insert_eq, insert_insert_eq.
Qed.

(** The section named by the empty string never receives an entry. *)
Lemma perform_empty_name st a :
  obj st !! "" = None ∨ obj st !! "" = Some ∅ →
  obj (perform st a) !! "" = None ∨ obj (perform st a) !! "" = Some ∅.
Proof.
  intros Hst. destruct a as [|key|key val]; simpl; [done| |].
  - destruct (decide (key = "")) as [->|Hne].
    + right. apply lookup_insert_eq.
    + by rewrite lookup_insert_ne.
  - destruct (cur_sec st) as [sec|]; [|done].
    destruct (JsString.truthy sec) eqn:Hsec; [|done]. simpl.
    apply truthy_nonempty in Hsec. by rewrite lookup_insert_ne.
Qed.

(** What an action leaves in a section was there before or is the
    action's own doing. *)
Lemma perform_provenance st a sector section :
  parse_inv st →
  obj (perform st a) !! sector = Some section →
  (is_Some (obj st !! sector) ∨ a = OpensSection sector)
  ∧ ∀ provider v,
      section !! provider = Some v →
      (∃ section0, obj st !! sector = Some section0
                   ∧ section0 !! provider = Some v)
      ∨ a = Records provider v.
Proof.
  intros [Hsec _] Hfinal. destruct a as [|k|k val]; simpl in Hfinal.
  - split; [left; by eexists|]. intros provider v Hv. left. by exists section.
  - destruct (decide (k = sector)) as [->|Hne].
    + rewrite lookup_insert_eq in Hfinal. injection Hfinal as <-.
      split; [by right|]. intros provider v Hv. by rewrite lookup_empty in Hv.
    + rewrite lookup_insert_ne in Hfinal by done.
      split; [left; by eexists|]. intros provider v Hv. left. by exists section.
  - destruct (cur_sec st) as [sec|] eqn:Hcur.
    2: { split; [left; by eexists|]. intros provider v Hv. left. by exists section. }
    destruct (JsString.truthy sec).
    2: { split; [left; by eexists|]. intros provider v Hv. left. by exists section. }
    simpl in Hfinal. destruct (Hsec sec eq_refl) as [section0 Hsection0].
    destruct (decide (sec = sector)) as [->|Hne].
    + rewrite lookup_insert_eq, Hsection0 in Hfinal. injection Hfinal as <-.
      split; [left; by eexists|]. intros provider v Hv.
      destruct (decide (k = provider)) as [->|Hnk].
      * rewrite lookup_insert_eq in Hv. injection Hv as <-. by right.
      * rewrite lookup_insert_ne in Hv by done. left. by exists section0.
    + rewrite lookup_insert_ne in Hfinal by done.
      split; [left; by eexists|]. intros provider v Hv. left. by exists section.
Qed.

(** Where the content of the final state comes from: the initial state or
    one of the lines. *)
Lemma foldl_perform_provenance lines : ∀ st sector section,
  parse_inv st →
  obj (foldl (λ st line, perform st (classify line)) st lines) !! sector
  = Some section →
  (is_Some (obj st !! sector)
   ∨ ∃ line, line ∈ lines ∧ classify line = OpensSection sector)
  ∧ ∀ provider v,
      section !! provider = Some v →
      (∃ section0, obj st !! sector = Some section0
                   ∧ section0 !! provider = Some v)
      ∨ ∃ line, line ∈ lines ∧ classify line = Records provider v.
Proof.
  induction lines as [|line rest IH]; intros st sector section Hinv Hfinal.
  - simpl in Hfinal. split; [left; by eexists|]. intros provider v Hv.
    left. by exists section.
  - simpl in Hfinal.
    destruct (IH _ _ _ (perform_inv st line Hinv) Hfinal) as [Hsector Hentries].
    assert (∀ l, l ∈ rest → l ∈ line :: rest) as Hin by (intros; by right).
    assert (line ∈ line :: rest) as Hhere by left.
    split.
    + destruct Hsector as [[section1 Hsome]|(l & Hl & Hc)]; [|right; eauto].
      destruct (perform_provenance _ _ _ _ Hinv Hsome) as [[Hst|Hopen] _];
        [by left | right; eauto].
    + intros provider v Hv.
      destruct (Hentries provider v Hv) as [(section1 & Hsome & Hv1)|(l & Hl & Hc)];
        [|right; eauto].
      destruct (perform_provenance _ _ _ _ Hinv Hsome) as [_ Hfrom].
      destruct (Hfrom provider v Hv1) as [Hold|Hrec]; [by left | right; eauto].
Qed.

(** A section, once opened, is there at the end. *)
Lemma perform_keeps_section st a sector :
  is_Some (obj st !! sector) → is_Some (obj (perform st a) !! sector).
Proof.
  intros Hsome. destruct a as [|key|key val]; simpl; [done| |].
  - rewrite lookup_insert. by case_decide.
  - destruct (cur_sec st) as [sec|]; [|done].
    destruct (JsString.truthy sec); [|done]. simpl.
    rewrite lookup_insert. by case_decide.
Qed.

Lemma foldl_perform_keeps_section lines sector : ∀ st,
  is_Some (obj st !! sector) →
  is_Some (obj (foldl (λ st line, perform st (classify line)) st lines) !! sector).
Proof.
  induction lines as [|line rest IH]; intros st Hsome; [done|].
  simpl. by apply IH, perform_keeps_section.
Qed.

Lemma foldl_perform_opened lines sector : ∀ st line,
  line ∈ lines → classify line = OpensSection sector →
  is_Some (obj (foldl (λ st line, perform st (classify line)) st lines) !! sector).
Proof.
  induction lines as [|l rest IH]; intros st line Hin Hc.
  - by apply elem_of_nil in Hin.
  - simpl. apply elem_of_cons in Hin as [<-|Hin]; [|by eapply IH].
    apply foldl_perform_keeps_section. rewrite Hc. simpl.
    rewrite lookup_insert_eq. by eexists.
Qed.

End LineActions.

(** ** White space around a line *)

Section WhiteSpace.

Implicit Types (s ws : string) (c : ascii).

Lemma trimStart_head s :
  JsString.trimStart s = ""
  ∨ ∃ c r, JsString.trimStart s = String c r ∧ JsString.is_space c = false.
Proof.
  induction s as [|c s IH]; [by left|]. simpl.
  destruct (JsString.is_space c) eqn:Hc; [done|]. right. by exists c, s.
Qed.

Lemma blank_trimStart ws : blank ws ↔ JsString.trimStart ws = "".
Proof.
  unfold blank, JsString.trim. split; [|by intros ->].
  destruct (trimStart_head ws) as [->|(c & r & -> & Hc)]; [done|].
  simpl. by rewrite Hc.
Qed.

Lemma blank_cons c ws :
  blank (String c ws) ↔ JsString.is_space c = true ∧ blank ws.
Proof.
  rewrite !blank_trimStart. simpl.
  destruct (JsString.is_space c); split; try done; by intros [].
Qed.

Lemma trimEnd_blank ws : blank ws → JsString.trimEnd ws = "".
Proof.
  induction ws as [|c ws IH]; [done|].
  intros [Hc Hws]%blank_cons. simpl. by rewrite IH, Hc.
Qed.

Lemma search_blank ws : blank ws → JsString.search_non_space ws = -1.
Proof.
  induction ws as [|c ws IH]; [done|].
  intros [Hc Hws]%blank_cons. simpl. by rewrite IH, Hc.
Qed.

Lemma search_lower_bound s : -1 ≤ JsString.search_non_space s.
Proof.
  induction s as [|c s IH]; simpl; [done|].
  destruct (JsString.is_space c); [|done].
  destruct (Z.ltb_spec (JsString.search_non_space s) 0); lia.
Qed.

(** An indented line is not at indentation 0. *)
Lemma search_space_head c s :
  JsString.is_space c = true → JsString.search_non_space (String c s) ≠ 0.
Proof.
  intros Hc. simpl. rewrite Hc. pose proof (search_lower_bound s).
  destruct (Z.ltb_spec (JsString.search_non_space s) 0); lia.
Qed.

Lemma trimEnd_app_blank s ws :
  blank ws → JsString.trimEnd (s +:+ ws) = JsString.trimEnd s.
Proof.
  intros Hws. induction s as [|c s IH]; [by apply trimEnd_blank|].
  rewrite append_cons. simpl. by rewrite IH.
Qed.

Lemma trim_app_blank s ws : blank ws → JsString.trim (s +:+ ws) = JsString.trim s.
Proof.
  intros Hws. induction s as [|c s IH]; [done|].
  rewrite append_cons. unfold JsString.trim in *. simpl.
  destruct (JsString.is_space c); [done|].
  rewrite <- append_cons. by apply trimEnd_app_blank.
Qed.

Lemma search_app_blank s ws :
  blank ws → JsString.search_non_space (s +:+ ws) = JsString.search_non_space s.
Proof.
  intros Hws. induction s as [|c s IH]; [by apply search_blank|].
  rewrite append_cons. simpl. by rewrite IH.
Qed.

Lemma trimStart_blank_app ws s :
  blank ws → JsString.trimStart (ws +:+ s) = JsString.trimStart s.
Proof.
  induction ws as [|c ws IH]; [done|].
  intros [Hc Hws]%blank_cons. rewrite append_cons. simpl. rewrite Hc. auto.
Qed.

Lemma trim_blank_app ws s : blank ws → JsString.trim (ws +:+ s) = JsString.trim s.
Proof. intros Hws. unfold JsString.trim. by rewrite trimStart_blank_app. Qed.

(** White space after a line does not change what the line is. *)
Lemma classify_app_blank line ws : blank ws → classify (line +:+ ws) = classify line.
Proof.
  intros Hws. unfold classify.
  by rewrite trim_app_blank, search_app_blank.
Qed.

(** More white space before an indented line does not change what the
    line is. *)
Lemma classify_blank_app ws c r :
  blank ws → JsString.is_space c = true →
  classify (ws +:+ String c r) = classify (String c r).
Proof.
  intros Hws Hc. unfold classify. rewrite trim_blank_app by done.
  assert ((JsString.search_non_space (ws +:+ String c r) =? 0) = false) as ->.
  { apply Z.eqb_neq. destruct ws as [|w ws]; [by apply search_space_head|].
    apply blank_cons in Hws as [Hw _]. rewrite append_cons.
    by apply search_space_head. }
  assert ((JsString.search_non_space (String c r) =? 0) = false) as ->; [|done].
  apply Z.eqb_neq. by apply search_space_head.
Qed.

End WhiteSpace.

(** ** Colons in a value *)

Section Colons.

Implicit Types (s : string) (sep : ascii).

Lemma split_split1 sep s :
  JsString.split sep s
  = (JsString.split1 sep s).1 :: (JsString.split1 sep s).2.
Proof. unfold JsString.split. by destruct (JsString.split1 sep s). Qed.

(** Joining the pieces with the separator gives the string back. *)
Lemma join_split sep s :
  JsString.join (String sep "") (JsString.split sep s) = s.
Proof.
  induction s as [|c s IH]; [done|].
  destruct (decide (c = sep)) as [->|Hc].
  - rewrite split_cons_sep. pose proof (split_nonempty sep s) as Hne.
    destruct (JsString.split sep s) as [|h t] eqn:Hs; [done|].
    change (JsString.join (String sep "") ("" :: h :: t))
      with (String sep (JsString.join (String sep "") (h :: t))).
    by rewrite IH.
  - rewrite split_cons_other by done. pose proof (split_nonempty sep s) as Hne.
    destruct (JsString.split sep s) as [|h t] eqn:Hs; [done|].
    rewrite <- IH. by destruct t.
Qed.

(** The first piece and the rest of a string with a separator-free
    front. *)
Lemma split1_key_rest sep (key rest : string) :
  unbroken sep key →
  JsString.split1 sep (key +:+ String sep rest) = (key, JsString.split sep rest).
Proof.
  intros Hkey. pose proof (split_app sep key rest) as Happ.
  rewrite Hkey, split_split1 in Happ.
  destruct (JsString.split1 sep (key +:+ String sep rest)) as [h t].
  simpl in Happ. by injection Happ as -> ->.
Qed.

End Colons.

(** ** Texts given by their lines *)

Section Texts.

Lemma foldl_classify (lines : list string) : ∀ st,
  foldl (λ st line, perform st (classify line)) st lines
  = foldl perform st (classify <$> lines).
Proof. induction lines as [|line rest IH]; intros st; [done|]. simpl. apply IH. Qed.

Lemma parse_yaml_all_lines (lines : list string) :
  Forall single_line lines →
  parse_yaml (JsString.join nl lines)
  = Ok (obj (foldl (λ st line, perform st (classify line)) parse_start lines)).
Proof.
  intros Hlines. rewrite parse_yaml_perform.
  destruct lines as [|line rest]; [done|].
  unfold nl. by rewrite split_join.
Qed.

Lemma unbroken_cons sep (c : ascii) (s : string) :
  unbroken sep (String c s) → c ≠ sep ∧ unbroken sep s.
Proof.
  unfold unbroken. destruct (decide (c = sep)) as [->|Hc].
  - by rewrite split_cons_sep.
  - rewrite split_cons_other by done.
    destruct (JsString.split sep s) as [|h t]; [done|]. by intros [= -> ->].
Qed.

Lemma unbroken_app sep (a b : string) :
  unbroken sep a → unbroken sep b → unbroken sep (a +:+ b).
Proof.
  intros Ha Hb. induction a as [|c a IH]; [done|].
  apply unbroken_cons in Ha as [Hc Ha]. rewrite append_cons.
  unfold unbroken. rewrite split_cons_other by done. by rewrite IH.
Qed.

(** Splitting a text written with carriage returns leaves lines that
    are what the lines without them are. *)
Lemma classify_crlf_lines (lines : list string) :
  lines ≠ [] → Forall single_line lines →
  classify <$> JsString.split "010" (JsString.join crlf lines)
  = classify <$> lines.
Proof.
  induction lines as [|x rest IH]; [done|]. intros _ Hlines.
  apply Forall_cons in Hlines as [Hx Hrest].
  unfold single_line, unbroken in Hx.
  destruct rest as [|y rest]; [cbn [JsString.join]; by rewrite Hx|].
  change (JsString.join crlf (x :: y :: rest))
    with (x +:+ crlf +:+ JsString.join crlf (y :: rest)).
  unfold crlf at 1, nl.
  change (x +:+ String "013" (String "010" "") +:+ JsString.join crlf (y :: rest))
    with (x +:+ String "013" (String "010" (JsString.join crlf (y :: rest)))).
  change (x +:+ String "013" (String "010" (JsString.join crlf (y :: rest))))
    with (x +:+ String "013" "" +:+ String "010" (JsString.join crlf (y :: rest))).
  rewrite <- append_assoc, split_app, fmap_app, IH by done.
  assert (unbroken "010" (x +:+ String "013" "")) as ->
    by (by apply unbroken_app).
  simpl. by rewrite classify_app_blank.
Qed.

Lemma parse_inv_opened st key :
  parse_inv st →
  parse_inv {| obj := <[key := ∅]> (obj st); cur_sec := Some key |}.
Proof.
  intros [_ Hval]. split; simpl.
  - intros sec [= <-]. rewrite lookup_insert_eq. by eexists.
  - by apply values_nonempty_new_section.
Qed.

Lemma parse_start_lookup sector : obj parse_start !! sector = None.
Proof. apply lookup_empty. Qed.

Lemma record_entry_other section line provider :
  (∀ v, classify line ≠ Records provider v) →
  record_entry section line !! provider = section !! provider.
Proof.
  intros Hline. unfold record_entry.
  destruct (classify line) as [|k|k v] eqn:Hc; [done..|].
  destruct (decide (k = provider)) as [->|Hne]; [by destruct (Hline v)|].
  by rewrite lookup_insert_ne.
Qed.

Lemma foldl_record_entry_other lines provider : ∀ section,
  Forall (λ l, ∀ v, classify l ≠ Records provider v) lines →
  foldl record_entry section lines !! provider = section !! provider.
Proof.
  induction lines as [|line rest IH]; intros section Hlines; [done|].
  apply Forall_cons in Hlines as [Hline Hrest]. simpl.
  by rewrite IH, record_entry_other.
Qed.

Lemma block_entries_last before line after provider v :
  classify line = Records provider v →
  Forall (λ l, ∀ v', classify l ≠ Records provider v') after →
  block_entries (before ++ line :: after) !! provider = Some v.
Proof.
  intros Hline Hafter. unfold block_entries. rewrite foldl_app. simpl.
  rewrite foldl_record_entry_other by done.
  unfold record_entry. rewrite Hline. apply lookup_insert_eq.
Qed.

(** Lines that open no section [key], read while another section (or
    none) is current, leave section [key] as it is. *)
Lemma foldl_perform_other_sections key lines : ∀ st,
  cur_sec st ≠ Some key →
  Forall (λ l, ¬ header_line l key) lines →
  obj (foldl (λ st line, perform st (classify line)) st lines) !! key
  = obj st !! key.
Proof.
  induction lines as [|line rest IH]; intros st Hcur Hlines; [done|].
  apply Forall_cons in Hlines as [Hline Hrest]. simpl.
  rewrite classify_header in Hline.
  destruct (classify line) as [|k|k v] eqn:Hc.
  - by apply IH.
  - rewrite IH; [|simpl; congruence|done]. simpl.
    rewrite lookup_insert_ne; [done|congruence].
  - simpl. destruct (cur_sec st) as [sec|] eqn:Hsec;
      [|apply IH; [by rewrite Hsec|done]].
    destruct (JsString.truthy sec); [|apply IH; [by rewrite Hsec|done]].
    rewrite IH; [|done..]. simpl.
    rewrite lookup_insert_ne; [done|congruence].
Qed.

(** The content of a section: the block after its last header. *)
Lemma parse_yaml_section_content pre hdr block post key :
  header_line hdr key → key ≠ "" →
  Forall single_line (pre ++ hdr :: block ++ post) →
  Forall opens_no_section block →
  post = [] ∨ (∃ hdr' key' rest, post = hdr' :: rest ∧ header_line hdr' key') →
  Forall (λ l, ¬ header_line l key) post →
  ∃ c, parse_yaml (JsString.join nl (pre ++ hdr :: block ++ post)) = Ok c
       ∧ c !! key = Some (block_entries block).
Proof.
  intros Hhdr Hkey Hlines Hblock Hpost Hothers.
  eexists. split; [by apply parse_yaml_all_lines|].
  rewrite foldl_app. simpl. rewrite foldl_app.
  apply classify_header in Hhdr. rewrite Hhdr. cbn [perform].
  rewrite foldl_perform_block by done.
  destruct Hpost as [->|(hdr' & key' & rest & -> & Hhdr')].
  - simpl. apply lookup_insert_eq.
  - apply Forall_cons in Hothers as [Hfirst Hrest].
    assert (key' ≠ key) as Hne by (by intros ->).
    simpl. apply classify_header in Hhdr'. rewrite Hhdr'. cbn [perform obj].
    rewrite foldl_perform_other_sections; [|simpl; congruence|done].
    simpl. by rewrite lookup_insert_ne, lookup_insert_eq.
Qed.

(** A sector without a header line has no section. *)
Lemma parse_yaml_no_header yml c sector :
  parse_yaml yml = Ok c →
  Forall (λ l, ¬ header_line l sector) (JsString.split "010" yml) →
  c !! sector = None.
Proof.
  rewrite parse_yaml_perform. intros [= <-] Hlines.
  destruct (obj _ !! sector) as [section|] eqn:Hsector; [|done].
  destruct (foldl_perform_provenance _ _ _ _ parse_start_inv Hsector)
    as [[[? Hstart]|(line & Hin & Hc)] _].
  - by rewrite parse_start_lookup in Hstart.
  - rewrite Forall_forall in Hlines. destruct (Hlines line Hin).
    by apply classify_header.
Qed.

End Texts.

(** ** The program's parser, line by line *)

Section RuntimeTexts.

(** The loop body of the program is the action of the line. *)
Lemma runtime_parse_line_perform st line :
  Node.parse_line st line = runtime_perform st (classify line).
Proof.
  unfold Node.parse_line, classify.
  destruct (negb _ || _); [done|].
  destruct (JsString.split1 ":" (JsString.trim line)) as [key val_parts].
  destruct (JsString.search_non_space line =? 0); cbn [andb].
  - by destruct (JsString.truthy _).
  - destruct (JsString.truthy (JsString.trim _)) eqn:Hval; cbn [runtime_perform].
    + destruct (Node.cur_sec st) as [sec|] eqn:Hcur; [|done].
      by rewrite andb_true_r.
    + destruct (Node.cur_sec st); [|done]. by rewrite andb_false_r.
Qed.

Lemma classify_line_key line :
  match classify line with
  | Skipped => True
  | OpensSection key => line_key line = key
  | Records key _ => line_key line = key
  end.
Proof.
  unfold classify, line_key.
  destruct (negb _ || _); [done|].
  destruct (JsString.split1 ":" (JsString.trim line)) as [key val_parts].
  destruct (_ =? 0); cbn [andb]; by destruct (JsString.truthy _).
Qed.

Lemma header_line_key line key : header_line line key → line_key line = key.
Proof.
  intros Hhdr%classify_header. pose proof (classify_line_key line) as Hkey.
  by rewrite Hhdr in Hkey.
Qed.

(** On a line without the key [__proto__], read outside a section
    [__proto__], the program does what the dictionary reading says. *)
Lemma runtime_perform_plain st line :
  parse_inv st → cur_sec st ≠ Some "__proto__" →
  line_key line ≠ "__proto__" →
  runtime_perform (runtime_state st) (classify line)
  = Ok (runtime_state (perform st (classify line)))
  ∧ cur_sec (perform st (classify line)) ≠ Some "__proto__".
Proof.
  intros [Hsec _] Hcur Hkey. pose proof (classify_line_key line) as Hline.
  destruct (classify line) as [|key|key val]; cbn [runtime_perform perform].
  - done.
  - subst key. split; [|cbn; congruence].
    unfold Node.set_section, runtime_state, Node.plain; cbn.
    by rewrite decide_False.
  - subst key. cbn [runtime_state Node.cur_sec].
    destruct (cur_sec st) as [sec|] eqn:Hsection; [|by rewrite Hsection].
    destruct (JsString.truthy sec); [|by rewrite Hsection].
    rewrite decide_False by congruence.
    destruct (Hsec sec eq_refl) as [section Hlookup].
    change (Node.sections (Node.obj (runtime_state st))) with (obj st).
    change (Node.created_proto (Node.obj (runtime_state st)))
      with (@None (gmap string string)).
    rewrite Hlookup. unfold Node.set_entry. rewrite decide_False by done.
    split; [done|]. exact Hcur.
Qed.

Lemma runtime_parse_lines_plain lines : ∀ st,
  parse_inv st → cur_sec st ≠ Some "__proto__" → proto_free lines →
  Node.parse_lines (runtime_state st) lines
  = Ok (runtime_state (foldl (λ st line, perform st (classify line)) st lines)).
Proof.
  induction lines as [|line rest IH]; intros st Hinv Hcur Hlines; [done|].
  apply Forall_cons in Hlines as [Hline Hrest]. cbn [Node.parse_lines foldl].
  rewrite runtime_parse_line_perform.
  destruct (runtime_perform_plain st line Hinv Hcur Hline) as [-> Hcur'].
  apply IH; [by apply perform_inv|done..].
Qed.

(** A text without the key [__proto__] parses to an object with the
    sections of the dictionary reading and [Object.prototype] as its
    prototype. *)
Lemma runtime_parse_yaml_plain yml :
  proto_free (JsString.split "010" yml) →
  Node.parse_yaml yml
  = Ok (Node.plain
          (obj (foldl (λ st line, perform st (classify line)) parse_start
                  (JsString.split "010" yml)))).
Proof.
  intros Hlines. unfold Node.parse_yaml.
  change Node.parse_start with (runtime_state parse_start).
  by rewrite runtime_parse_lines_plain by (done || apply parse_start_inv).
Qed.

Lemma runtime_parse_yaml_all_lines (lines : list string) :
  Forall single_line lines → proto_free lines →
  Node.parse_yaml (JsString.join nl lines)
  = Ok (Node.plain
          (obj (foldl (λ st line, perform st (classify line)) parse_start lines))).
Proof.
  intros Hsingle Hfree.
  destruct lines as [|line rest]; [by_evaluation|].
  rewrite runtime_parse_yaml_plain; unfold nl; by rewrite split_join.
Qed.

(** Without a current section, lines that open none change nothing, the
    key [__proto__] included. *)
Lemma runtime_parse_lines_no_section lines : ∀ st,
  Node.cur_sec st = None → Forall opens_no_section lines →
  Node.parse_lines st lines = Ok st.
Proof.
  induction lines as [|line rest IH]; intros st Hcur Hlines; [done|].
  apply Forall_cons in Hlines as [Hline Hrest]. cbn [Node.parse_lines].
  rewrite runtime_parse_line_perform.
  assert (runtime_perform st (classify line) = Ok st) as ->; [|by apply IH].
  destruct (classify line) as [|key|key val] eqn:Hc; [done| |].
  - by destruct (Hline key).
  - cbn. by rewrite Hcur.
Qed.

(** An entry of a block comes from a line of the block with its key. *)
Lemma foldl_record_entry_key lines provider v : ∀ section,
  foldl record_entry section lines !! provider = Some v →
  section !! provider = Some v
  ∨ ∃ line, line ∈ lines ∧ line_key line = provider.
Proof.
  induction lines as [|line rest IH]; intros section Hv; [by left|].
  cbn [foldl] in Hv. destruct (IH _ Hv) as [Hhere|(l & Hin & Hkey)].
  - unfold record_entry in Hhere. pose proof (classify_line_key line) as Hline.
    destruct (classify line) as [|k|k w]; [by left..|].
    destruct (decide (k = provider)) as [->|Hne].
    + right. exists line. split; [apply elem_of_cons; by left|done].
    + rewrite lookup_insert_ne in Hhere by done. by left.
  - right. exists l. split; [apply elem_of_cons; by right|done].
Qed.

Lemma block_entries_key block provider v :
  block_entries block !! provider = Some v →
  ∃ line, line ∈ block ∧ line_key line = provider.
Proof.
  intros Hv. destruct (foldl_record_entry_key block provider v ∅ Hv)
    as [Hempty|Hline]; [by rewrite lookup_empty in Hempty|done].
Qed.

Lemma block_entries_nonempty block provider v :
  block_entries block !! provider = Some v → v ≠ "".
Proof.
  unfold block_entries.
  assert (∀ section : gmap string string,
            (∀ p w, section !! p = Some w → w ≠ "") →
            ∀ p w, foldl record_entry section block !! p = Some w → w ≠ "")
    as Hfold.
  { induction block as [|line rest IH]; intros section Hsection; [done|].
    cbn [foldl]. apply IH. intros p w. unfold record_entry.
    destruct (classify line) as [|k|k val] eqn:Hc; [apply Hsection..|].
    destruct (decide (k = p)) as [->|Hne].
    - rewrite lookup_insert_eq. intros [= <-].
      by apply (classify_records_nonempty line p val).
    - rewrite lookup_insert_ne by done. apply Hsection. }
  apply Hfold. intros p w. by rewrite lookup_empty.
Qed.

(** Where the content of the dictionary reading comes from. *)
Lemma parse_yaml_sources yml c :
  parse_yaml yml = Ok c →
  (∀ sector,
      is_Some (c !! sector)
      ↔ ∃ line, line ∈ JsString.split "010" yml ∧ header_line line sector)
  ∧ ∀ sector section provider v,
      c !! sector = Some section → section !! provider = Some v →
      ∃ line,
        line ∈ JsString.split "010" yml
        ∧ JsString.search_non_space line ≠ 0
        ∧ line_key line = provider
        ∧ JsString.trim
            (JsString.join ":" (JsString.split1 ":" (JsString.trim line)).2)
          = v.
Proof.
  rewrite parse_yaml_perform. intros [= <-]. split.
  - intros sector. split.
    + intros [section Hsector].
      destruct (foldl_perform_provenance _ _ _ _ parse_start_inv Hsector)
        as [[[? Hstart]|(line & Hin & Hc)] _];
        [by rewrite parse_start_lookup in Hstart|].
      exists line. split; [done|]. by apply classify_header.
    + intros (line & Hin & Hhdr%classify_header).
      by eapply foldl_perform_opened.
  - intros sector section provider v Hsector Hv.
    destruct (foldl_perform_provenance _ _ _ _ parse_start_inv Hsector)
      as [_ Hentries].
    destruct (Hentries provider v Hv) as [(? & Hstart & _)|(line & Hin & Hc)];
      [by rewrite parse_start_lookup in Hstart|].
    exists line. split; [done|]. revert Hc. unfold classify, line_key.
    destruct (negb _ || _); [done|].
    destruct (JsString.split1 ":" (JsString.trim line)) as [k val_parts].
    destruct (_ =? 0) eqn:Hindent; cbn [andb].
    + by destruct (JsString.truthy _).
    + destruct (JsString.truthy _); [|done]. intros [= <- <-].
      by apply Z.eqb_neq in Hindent.
Qed.

End RuntimeTexts.

(** ** Statements about the parser *)

(** X1. A section block: when the text ends with a header for a section
    with a non-empty name followed by lines that open no section, and no
    line of the text has the key [__proto__], the result is the result for
    the text before the header with that section set to the entries of the
    block.  Within the block the last entry for a provider is the one
    kept. *)
Theorem section_block_entries pre hdr block key :
  header_line hdr key → key ≠ "" →
  Forall single_line (pre ++ hdr :: block) →
  Forall opens_no_section block →
  proto_free (pre ++ hdr :: block) →
  ∃ c_pre,
    Node.parse_yaml (JsString.join nl pre) = Ok (Node.plain c_pre)
    ∧ Node.parse_yaml (JsString.join nl (pre ++ hdr :: block))
      = Ok (Node.plain (<[key := block_entries block]> c_pre))
    ∧ ∀ before line after provider v,
        block = before ++ line :: after →
        classify line = Records provider v →
        Forall (λ l, ∀ v', classify l ≠ Records provider v') after →
        block_entries block !! provider = Some v.
Proof.
  intros Hhdr Hkey Hlines Hblock Hfree.
  pose proof Hlines as Hpre. apply Forall_app in Hpre as [Hpre _].
  pose proof Hfree as Hfree_pre. apply Forall_app in Hfree_pre as [Hfree_pre _].
  eexists. split; [by apply runtime_parse_yaml_all_lines|]. split.
  - rewrite runtime_parse_yaml_all_lines by done. do 2 f_equal.
    rewrite foldl_app. simpl.
    apply classify_header in Hhdr. rewrite Hhdr. cbn [perform].
    by rewrite foldl_perform_block.
  - intros before line after provider v -> Hline Hafter.
    by apply (block_entries_last before line after).
Qed.

Lemma section_block_entries_witness :
  header_line "b:" "b"
  ∧ Forall single_line (["a:"; "  x: 1"] ++ "b:" :: ["  y: 2"; "# note"; "  y: 3"])
  ∧ Forall opens_no_section ["  y: 2"; "# note"; "  y: 3"]
  ∧ proto_free (["a:"; "  x: 1"] ++ "b:" :: ["  y: 2"; "# note"; "  y: 3"])
  ∧ ∃ c_pre,
      Node.parse_yaml (JsString.join nl ["a:"; "  x: 1"]) = Ok (Node.plain c_pre)
      ∧ Node.parse_yaml (JsString.join nl (["a:"; "  x: 1"]
                                           ++ "b:" :: ["  y: 2"; "# note"; "  y: 3"]))
        = Ok (Node.plain
                (<["b" := block_entries ["  y: 2"; "# note"; "  y: 3"]]> c_pre))
      ∧ ∀ before line after provider v,
          ["  y: 2"; "# note"; "  y: 3"] = before ++ line :: after →
          classify line = Records provider v →
          Forall (λ l, ∀ v', classify l ≠ Records provider v') after →
          block_entries ["  y: 2"; "# note"; "  y: 3"] !! provider = Some v.
Proof.
  assert (header_line "b:" "b") as Hhdr.
  { repeat split. exists [""]. split; reflexivity. }
  assert ("b" ≠ "") as Hname by discriminate.
  assert (Forall single_line
            (["a:"; "  x: 1"] ++ "b:" :: ["  y: 2"; "# note"; "  y: 3"]))
    as Hlines by (repeat constructor).
  assert (Forall opens_no_section ["  y: 2"; "# note"; "  y: 3"]) as Hblock
    by (repeat constructor; intros key; vm_compute; discriminate).
  assert (proto_free (["a:"; "  x: 1"] ++ "b:" :: ["  y: 2"; "# note"; "  y: 3"]))
    as Hfree by (repeat constructor; vm_compute; discriminate).
  split; [exact Hhdr|]. split; [exact Hlines|]. split; [exact Hblock|].
  split; [exact Hfree|].
  exact (section_block_entries ["a:"; "  x: 1"] "b:"
           ["  y: 2"; "# note"; "  y: 3"] "b" Hhdr Hname Hlines Hblock Hfree).
Defined.

(** The key [__proto__] in a block records nothing: the assignment reaches
    the setter inherited from [Object.prototype]. *)
Example proto_entry_not_recorded :
  Node.parse_yaml (JsString.join nl ["a:"; "  __proto__: m1"])
  = Ok (Node.plain {["a" := ∅]}).
Proof. by_evaluation. Qed.

(** The header [__proto__:] opens no section: the entries below it go to
    the object the header made the prototype. *)
Example proto_header_opens_no_section :
  Node.parse_yaml (JsString.join nl ["__proto__:"; "  x: m1"; "a:"; "  y: m2"])
  = Ok {| Node.sections := {["a" := {["y" := "m2"]}]};
          Node.created_proto := Some {["x" := "m1"]} |}.
Proof. by_evaluation. Qed.

Example section_block_example :
  parse_yaml (JsString.join nl ["a:"; "  x: 1"; "b:"; "  y: 2"; "# note"; "  y: 3"])
  = Ok (<["b" := {["y" := "3"]}]> {["a" := {["x" := "1"]}]}).
Proof. by_evaluation. Qed.

(** X13. The content of a section is the block after its last header: when
    a header for a section with a non-empty name is followed by lines that
    open no section, and then the text ends or goes on with headers of
    other sections only, and no line of the text has the key [__proto__],
    that section of the result holds exactly the entries of the block. *)
Theorem section_holds_last_block pre hdr block post key :
  header_line hdr key → key ≠ "" →
  Forall single_line (pre ++ hdr :: block ++ post) →
  Forall opens_no_section block →
  post = [] ∨ (∃ hdr' key' rest, post = hdr' :: rest ∧ header_line hdr' key') →
  Forall (λ l, ¬ header_line l key) post →
  proto_free (pre ++ hdr :: block ++ post) →
  ∃ c, Node.parse_yaml (JsString.join nl (pre ++ hdr :: block ++ post)) = Ok c
       ∧ Node.created_proto c = None
       ∧ Node.sections c !! key = Some (block_entries block).
Proof.
  intros Hhdr Hkey Hlines Hblock Hpost Hothers Hfree.
  eexists. split; [by apply runtime_parse_yaml_all_lines|]. split; [done|].
  destruct (parse_yaml_section_content pre hdr block post key
              Hhdr Hkey Hlines Hblock Hpost Hothers) as (c & Hparse & Hsection).
  rewrite parse_yaml_all_lines in Hparse by done. by injection Hparse as <-.
Qed.

Lemma section_holds_last_block_witness :
  header_line "a:" "a"
  ∧ Forall single_line (["a:"; "  x: 0"] ++ "a:" :: ["  x: 1"; "   y: 2"]
                        ++ ["b:"; "  x: 3"])
  ∧ Forall opens_no_section ["  x: 1"; "   y: 2"]
  ∧ Forall (λ l, ¬ header_line l "a") ["b:"; "  x: 3"]
  ∧ proto_free (["a:"; "  x: 0"] ++ "a:" :: ["  x: 1"; "   y: 2"]
                ++ ["b:"; "  x: 3"])
  ∧ ∃ c, Node.parse_yaml (JsString.join nl
                            (["a:"; "  x: 0"] ++ "a:" :: ["  x: 1"; "   y: 2"]
                             ++ ["b:"; "  x: 3"])) = Ok c
         ∧ Node.created_proto c = None
         ∧ Node.sections c !! "a" = Some (block_entries ["  x: 1"; "   y: 2"]).
Proof.
  assert (header_line "a:" "a") as Hhdr.
  { repeat split. exists [""]. split; reflexivity. }
  assert ("a" ≠ "") as Hname by discriminate.
  assert (Forall single_line (["a:"; "  x: 0"] ++ "a:" :: ["  x: 1"; "   y: 2"]
                              ++ ["b:"; "  x: 3"])) as Hlines
    by (repeat constructor).
  assert (Forall opens_no_section ["  x: 1"; "   y: 2"]) as Hblock
    by (repeat constructor; intros key; vm_compute; discriminate).
  assert (["b:"; "  x: 3"] = []
          ∨ ∃ hdr' key' rest,
              ["b:"; "  x: 3"] = hdr' :: rest ∧ header_line hdr' key') as Hpost.
  { right. exists "b:", "b", ["  x: 3"].
    split; [reflexivity|]. repeat split. exists [""]. split; reflexivity. }
  assert (Forall (λ l, ¬ header_line l "a") ["b:"; "  x: 3"]) as Hothers.
  { repeat constructor; intros (_ & _ & _ & parts & Hsplit & _);
      vm_compute in Hsplit; discriminate. }
  assert (proto_free (["a:"; "  x: 0"] ++ "a:" :: ["  x: 1"; "   y: 2"]
                      ++ ["b:"; "  x: 3"])) as Hfree
    by (repeat constructor; vm_compute; discriminate).
  split; [exact Hhdr|]. split; [exact Hlines|]. split; [exact Hblock|].
  split; [exact Hothers|]. split; [exact Hfree|].
  exact (section_holds_last_block ["a:"; "  x: 0"] "a:"
           ["  x: 1"; "   y: 2"] ["b:"; "  x: 3"] "a"
           Hhdr Hname Hlines Hblock Hpost Hothers Hfree).
Defined.

(** X2. Lines before the first section header contribute nothing: the
    text parses as the text without them does.  A text without any header
    parses to the empty mapping, whatever entries it lists. *)
Theorem lines_before_first_header_dropped :
  (∀ pre rest,
      Forall single_line (pre ++ rest) → Forall opens_no_section pre →
      parse_yaml (JsString.join nl (pre ++ rest))
      = parse_yaml (JsString.join nl rest))
  ∧ (∀ yml,
      Forall opens_no_section (JsString.split "010" yml) →
      parse_yaml yml = Ok ∅).
Proof.
  split.
  - intros pre rest Hlines Hpre.
    pose proof Hlines as Hrest. apply Forall_app in Hrest as [_ Hrest].
    rewrite !parse_yaml_all_lines by done.
    by rewrite foldl_app, (foldl_perform_no_section pre parse_start).
  - intros yml Hlines. rewrite parse_yaml_perform.
    by rewrite foldl_perform_no_section.
Qed.

Lemma lines_before_first_header_dropped_witness :
  parse_yaml (JsString.join nl (["  openai: m1"; "foo: bar"] ++ ["a:"; "  x: 1"]))
  = parse_yaml (JsString.join nl ["a:"; "  x: 1"])
  ∧ parse_yaml ("  openai: m1" +:+ nl +:+ "foo: bar") = Ok ∅.
Proof.
  split.
  - apply (proj1 lines_before_first_header_dropped
             ["  openai: m1"; "foo: bar"] ["a:"; "  x: 1"]).
    + repeat constructor.
    + repeat constructor; intros key; vm_compute; discriminate.
  - apply (proj2 lines_before_first_header_dropped).
    repeat constructor; intros key; vm_compute; discriminate.
Defined.

(** X3. Nothing is made up: for a text in which no line has the key
    [__proto__], the result keeps [Object.prototype] as its prototype, its
    sections are exactly the keys of the header lines of the text, and
    every entry was listed by an indented line of the text with that key
    and that value (the trimmed text after the key's colon). *)
Theorem parsed_content_has_sources yml c :
  Node.parse_yaml yml = Ok c →
  proto_free (JsString.split "010" yml) →
  Node.created_proto c = None
  ∧ (∀ sector,
      is_Some (Node.sections c !! sector)
      ↔ ∃ line, line ∈ JsString.split "010" yml ∧ header_line line sector)
  ∧ ∀ sector section provider v,
      Node.sections c !! sector = Some section → section !! provider = Some v →
      ∃ line,
        line ∈ JsString.split "010" yml
        ∧ JsString.search_non_space line ≠ 0
        ∧ line_key line = provider
        ∧ JsString.trim
            (JsString.join ":" (JsString.split1 ":" (JsString.trim line)).2)
          = v.
Proof.
  intros Hparse Hfree. rewrite runtime_parse_yaml_plain in Hparse by done.
  injection Hparse as <-. split; [done|].
  apply parse_yaml_sources, parse_yaml_perform.
Qed.

Lemma parsed_content_has_sources_witness :
  Node.parse_yaml sample_yml = Ok (Node.plain sample_cfg)
  ∧ proto_free (JsString.split "010" sample_yml)
  ∧ (is_Some (sample_cfg !! "episodic")
     ↔ ∃ line, line ∈ JsString.split "010" sample_yml
               ∧ header_line line "episodic").
Proof.
  assert (Node.parse_yaml sample_yml = Ok (Node.plain sample_cfg)) as Hparse
    by by_evaluation.
  assert (proto_free (JsString.split "010" sample_yml)) as Hfree
    by (repeat constructor; vm_compute; discriminate).
  split; [exact Hparse|]. split; [exact Hfree|].
  exact (proj1 (proj2 (parsed_content_has_sources sample_yml
                         (Node.plain sample_cfg) Hparse Hfree))
           "episodic").
Defined.

(** X4. The section named by the empty string stays empty: after a header
    with an empty key (a line such as [:]) the indented lines are dropped
    until the next header, so in every result that section is absent or
    the empty mapping. *)
Theorem empty_named_section_stays_empty :
  (∀ st line,
      parse_inv st → cur_sec st = Some "" → opens_no_section line →
      parse_line st line = Ok st)
  ∧ (∀ yml, ∃ c,
      parse_yaml yml = Ok c ∧ (c !! "" = None ∨ c !! "" = Some ∅)).
Proof.
  split.
  - intros st line Hinv Hcur Hline. rewrite parse_line_perform by done.
    destruct (classify line) as [|key|key val] eqn:Hc; [done| |].
    + by destruct (Hline key).
    + simpl. by rewrite Hcur.
  - intros yml. eexists. split; [apply parse_yaml_perform|].
    generalize (JsString.split "010" yml). intros lines.
    assert (∀ st, obj st !! "" = None ∨ obj st !! "" = Some ∅ →
              obj (foldl (λ st line, perform st (classify line)) st lines) !! ""
              = None
              ∨ obj (foldl (λ st line, perform st (classify line)) st lines) !! ""
                = Some ∅) as Hfold.
    { induction lines as [|line rest IH]; intros st Hst; [done|].
      simpl. by apply IH, perform_empty_name. }
    apply Hfold. by left.
Qed.

Lemma empty_named_section_stays_empty_witness :
  parse_inv (opened "")
  ∧ opens_no_section "  openai: m1"
  ∧ parse_line (opened "") "  openai: m1" = Ok (opened "").
Proof.
  assert (parse_inv (opened "")) as Hinv
    by exact (parse_inv_opened parse_start "" parse_start_inv).
  assert (opens_no_section "  openai: m1") as Hline
    by (intros key; vm_compute; discriminate).
  split; [exact Hinv|]. split; [exact Hline|].
  exact (proj1 empty_named_section_stays_empty _ _ Hinv eq_refl Hline).
Defined.

Example empty_named_section_example :
  parse_yaml (JsString.join nl [":"; "  openai: m1"; "a:"; "  x: 1"])
  = Ok (<["" := ∅]> {["a" := {["x" := "1"]}]}).
Proof. by_evaluation. Qed.

(** X5. White space at the end of a line is ignored, so a text written
    with carriage returns before the line breaks parses as the text
    without them; and a final line break changes nothing. *)
Theorem trailing_white_space_ignored :
  (∀ st line ws, blank ws → parse_line st (line +:+ ws) = parse_line st line)
  ∧ (∀ lines,
      Forall single_line lines →
      parse_yaml (JsString.join crlf lines) = parse_yaml (JsString.join nl lines))
  ∧ (∀ yml, parse_yaml (yml +:+ nl) = parse_yaml yml).
Proof.
  split; [|split].
  - intros st line ws Hws. unfold parse_line.
    by rewrite trim_app_blank, search_app_blank.
  - intros lines Hlines. destruct lines as [|x rest]; [done|].
    rewrite parse_yaml_all_lines by done.
    rewrite parse_yaml_perform, !foldl_classify.
    by rewrite classify_crlf_lines.
  - intros yml. rewrite !parse_yaml_perform. unfold nl.
    by rewrite split_app, foldl_app.
Qed.

Lemma trailing_white_space_ignored_witness :
  blank (String "013" "")
  ∧ Forall single_line ["semantic:"; "  openai: m1"]
  ∧ parse_yaml (JsString.join crlf ["semantic:"; "  openai: m1"])
    = parse_yaml (JsString.join nl ["semantic:"; "  openai: m1"]).
Proof.
  assert (blank (String "013" "")) as Hcr by reflexivity.
  assert (Forall single_line ["semantic:"; "  openai: m1"]) as Hlines
    by (repeat constructor).
  split; [exact Hcr|]. split; [exact Hlines|].
  exact (proj1 (proj2 trailing_white_space_ignored) _ Hlines).
Defined.

(** X6. Only indentation 0 against any other counts: putting more white
    space (spaces or tabs) before an indented line does not change what the
    line does, so deeper nesting is flattened into the current section. *)
Theorem indentation_depth_ignored st ws c r :
  blank ws → JsString.is_space c = true →
  parse_line st (ws +:+ String c r) = parse_line st (String c r).
Proof.
  intros Hws Hc. unfold parse_line. rewrite trim_blank_app by done.
  assert ((JsString.search_non_space (ws +:+ String c r) =? 0) = false) as ->.
  { apply Z.eqb_neq. destruct ws as [|w ws]; [by apply search_space_head|].
    apply blank_cons in Hws as [Hw _]. rewrite append_cons.
    by apply search_space_head. }
  assert ((JsString.search_non_space (String c r) =? 0) = false) as ->; [|done].
  apply Z.eqb_neq. by apply search_space_head.
Qed.

Lemma indentation_depth_ignored_witness :
  blank "      "
  ∧ JsString.is_space " " = true
  ∧ parse_line (opened "a") ("      " +:+ String " " "x: 1")
    = parse_line (opened "a") (String " " "x: 1").
Proof.
  assert (blank "      ") as Hws by reflexivity.
  assert (JsString.is_space " " = true) as Hc by reflexivity.
  split; [exact Hws|]. split; [exact Hc|].
  exact (indentation_depth_ignored _ "      " " " "x: 1" Hws Hc).
Defined.

(** X7. The value of an entry is the trimmed text after the first colon
    of the line, further colons included: an indented line [key:rest]
    (the key free of colons) with a non-blank [rest], read while a section
    with a non-empty name other than [__proto__] is current, sets that
    section's entry for [key] to [rest] trimmed; unless the key is
    [__proto__], for which the line changes nothing. *)
Theorem entry_value_after_first_colon st line sec target key rest :
  Node.cur_sec st = Some sec → sec ≠ "" → sec ≠ "__proto__" →
  Node.sections (Node.obj st) !! sec = Some target →
  JsString.trim line = key +:+ ":" +:+ rest → unbroken ":" key →
  JsString.startsWith "#" (JsString.trim line) = false →
  JsString.search_non_space line ≠ 0 →
  JsString.trim rest ≠ "" →
  (key ≠ "__proto__" →
   Node.parse_line st line
   = Ok {| Node.obj :=
             {| Node.sections :=
                  <[sec := <[key := JsString.trim rest]> target]>
                    (Node.sections (Node.obj st));
                Node.created_proto := Node.created_proto (Node.obj st) |};
           Node.cur_sec := Some sec |})
  ∧ (key = "__proto__" → Node.parse_line st line = Ok st).
Proof.
  intros Hcur Hname Hproto Htarget Htrim Hkey Hcomment Hindent Hrest.
  assert (Node.parse_line st line
          = Ok {| Node.obj :=
                    {| Node.sections :=
                         <[sec := Node.set_entry target key (JsString.trim rest)]>
                           (Node.sections (Node.obj st));
                       Node.created_proto := Node.created_proto (Node.obj st) |};
                  Node.cur_sec := Some sec |}) as Hline.
  { unfold Node.parse_line. rewrite Hcomment, Htrim.
    change (key +:+ ":" +:+ rest) with (key +:+ String ":" rest).
    rewrite split1_key_rest by done.
    replace (JsString.truthy (key +:+ String ":" rest)) with true
      by (by rewrite truthy_append, orb_true_r).
    cbn [negb orb]. change ":"%string with (String ":" "") at 1.
    rewrite join_split.
    apply Z.eqb_neq in Hindent. rewrite Hindent. cbn [andb].
    apply truthy_nonempty in Hname, Hrest.
    rewrite Hcur, Hname, Hrest. cbn [andb].
    rewrite decide_False by done. by rewrite Htarget. }
  rewrite Hline. unfold Node.set_entry. split; intros Hk.
  - by rewrite decide_False.
  - rewrite decide_True by done. rewrite insert_id by done.
    destruct st as [[sections proto] cur]. cbn in *. by subst cur.
Qed.

Lemma entry_value_after_first_colon_witness :
  JsString.trim "  aws: amazon.titan-embed-text-v2:0"
  = "aws" +:+ ":" +:+ " amazon.titan-embed-text-v2:0"
  ∧ unbroken ":" "aws"
  ∧ Node.parse_line (runtime_state (opened "reflective"))
      "  aws: amazon.titan-embed-text-v2:0"
    = Ok {| Node.obj :=
              {| Node.sections :=
                   <["reflective" :=
                       <["aws" := JsString.trim " amazon.titan-embed-text-v2:0"]> ∅]>
                     (Node.sections (Node.obj (runtime_state (opened "reflective"))));
                 Node.created_proto :=
                   Node.created_proto (Node.obj (runtime_state (opened "reflective"))) |};
            Node.cur_sec := Some "reflective" |}.
Proof.
  assert (JsString.trim "  aws: amazon.titan-embed-text-v2:0"
          = "aws" +:+ ":" +:+ " amazon.titan-embed-text-v2:0")
    as Htrim by reflexivity.
  assert (unbroken ":" "aws") as Hkey by reflexivity.
  split; [exact Htrim|]. split; [exact Hkey|].
  apply (entry_value_after_first_colon (runtime_state (opened "reflective"))
           "  aws: amazon.titan-embed-text-v2:0" "reflective" ∅ "aws"
           " amazon.titan-embed-text-v2:0" eq_refl).
  - discriminate.
  - discriminate.
  - by_evaluation.
  - exact Htrim.
  - exact Hkey.
  - reflexivity.
  - vm_compute. discriminate.
  - vm_compute. discriminate.
  - discriminate.
Defined.

Example hash_after_value_is_no_comment :
  parse_line (opened "semantic") "  openai: m1 # note"
  = Ok {| obj := {["semantic" := {["openai" := "m1 # note"]}]};
          cur_sec := Some "semantic" |}.
Proof. by_evaluation. Qed.

Example entry_value_example :
  parse_line (opened "reflective") "  aws: amazon.titan-embed-text-v2:0"
  = Ok {| obj := {["reflective" := {["aws" := "amazon.titan-embed-text-v2:0"]}]};
          cur_sec := Some "reflective" |}.
Proof. by_evaluation. Qed.

(** * Further properties of the load and the lookup *)

Section Lookups.

Lemma get_defaults_sections sector section :
  get_defaults !! sector = Some section → sector ∈ builtin_sectors.
Proof.
  unfold get_defaults, builtin_sectors. intros Hs.
  repeat (apply lookup_insert_Some in Hs as [[<- _]|[_ Hs]];
          [rewrite !elem_of_cons; tauto|]).
  by rewrite lookup_empty in Hs.
Qed.

Lemma get_defaults_providers sector section provider model :
  get_defaults !! sector = Some section → section !! provider = Some model →
  provider ∈ builtin_providers.
Proof.
  unfold get_defaults, builtin_providers. intros Hs Hp.
  repeat (apply lookup_insert_Some in Hs as [[_ <-]|[_ Hs]];
    [repeat (apply lookup_insert_Some in Hp as [[<- _]|[_ Hp]];
             [rewrite !elem_of_cons; tauto|]);
     by rewrite lookup_empty in Hp |]).
  by rewrite lookup_empty in Hs.
Qed.

(** The trace of a load from an empty cache cell. *)
Lemma load_outcome_footprint h :
  load_footprint (load_outcome h).1 (load_outcome h).2.
Proof.
  unfold load_footprint, load_outcome.
  exists (probed h (candidate_paths h)).
  assert ((1 ≤ length (probed h (candidate_paths h)) ≤ 3)%nat) as Hlen.
  { unfold candidate_paths. cbn [probed].
    repeat (match goal with |- context [if ?b then _ else _] => destruct b end);
      simpl; lia. }
  assert (∀ p, List.find (existsSync h) (candidate_paths h) = Some p →
               last (probed h (candidate_paths h)) = Some p) as Hlast.
  { intros p. unfold candidate_paths. cbn [probed List.find].
    repeat (match goal with |- context [if ?b then _ else _] => destruct b end);
      by intros [= <-]. }
  destruct (List.find _ _) as [p|] eqn:Hfind.
  - specialize (Hlast p eq_refl).
    destruct (readFileSync h p) as [yml|e]; [destruct (parse_yaml yml) as [c|e] eqn:Hc|];
      eexists; (split; [done|]); (split; [done|]); cbn [fst];
      [right; left | right; right | right; right]; eauto 10.
  - eexists. split; [done|]. split; [done|]. by left.
Qed.

End Lookups.

Section RuntimeLookups.

Variable E : Node.engine.

(** What [load_models] returns is what it leaves in the cache cell. *)
Lemma runtime_load_models_caches h st c st1 :
  Node.load_models h st = (Ok c, st1) → Node.cfg st1 = Some c.
Proof.
  destruct (Node.cfg st) as [c0|] eqn:Hcfg.
  - rewrite (runtime_load_models_cached h st c0 Hcfg). by intros [= <- <-].
  - destruct (Node.process_cwd h) as [cwd|e] eqn:Hcwd.
    + rewrite (runtime_load_models_fresh h cwd st Hcfg Hcwd). by intros [= <- <-].
    + by rewrite (runtime_load_models_throws h e st Hcfg Hcwd).
Qed.

Lemma runtime_get_models_cached calls : ∀ st c,
  Node.cfg st = Some c →
  runtime_get_models E calls st = (resolve_all E c calls, st).
Proof.
  induction calls as [|[[h sector] provider] rest IH]; intros st c Hcfg; [done|].
  cbn [runtime_get_models resolve_all]. unfold Node.bind at 1.
  rewrite (runtime_get_model_cached h E sector provider st c Hcfg).
  destruct (Node.resolve E c sector provider) as [model|e]; [|done].
  unfold Node.bind at 1. rewrite (IH st c Hcfg).
  by destruct (resolve_all E c rest).
Qed.

(** A file was located: [process.cwd()] returned, and the path is the
    first candidate that exists. *)
Lemma runtime_located_file h st p :
  (Node.find_models_file h st).1 = Ok (Some p) →
  ∃ cwd, Node.process_cwd h = Ok cwd
         ∧ List.find (Node.existsSync h) (candidate_paths (with_cwd h cwd))
           = Some p.
Proof.
  destruct (Node.process_cwd h) as [cwd|e] eqn:Hcwd.
  - rewrite (runtime_find_models_file_returns h cwd st Hcwd). cbn [fst].
    intros [= Hfind]. by exists cwd.
  - by rewrite (runtime_find_models_file_throws h e st Hcwd).
Qed.

Lemma runtime_load_models_read h st p yml :
  Node.cfg st = None →
  (Node.find_models_file h st).1 = Ok (Some p) →
  Node.readFileSync h p = Ok yml →
  ∃ c st', Node.parse_yaml yml = Ok c ∧ Node.load_models h st = (Ok c, st').
Proof.
  intros Hnone (cwd & Hcwd & Hfound)%runtime_located_file Hread.
  rewrite (runtime_load_models_fresh h cwd) by done.
  unfold runtime_load_outcome. rewrite Hfound, Hread.
  destruct (runtime_parse_yaml_total yml) as (c & Hc & _).
  exists c. eexists. by rewrite Hc.
Qed.

(** [c[sector]?.[provider]] for a section the object has. *)
Lemma member_get_own (m : gmap string (gmap string string))
    sector section provider :
  sector ≠ "__proto__" → provider ≠ "__proto__" →
  m !! sector = Some section →
  Node.member E (Node.get E (Node.plain m) sector) provider
  = Ok (match section !! provider with
        | Some v => Node.Str v
        | None => Node.proto_member E provider
        end).
Proof.
  intros Hs Hp Hm. rewrite (get_plain_own E m sector section) by done.
  cbn [Node.member]. by rewrite decide_False.
Qed.

(** [c[sector]?.[provider]] for a name that reaches nothing. *)
Lemma member_get_missing (m : gmap string (gmap string string)) sector provider :
  not_inherited E sector → m !! sector = None →
  Node.member E (Node.get E (Node.plain m) sector) provider = Ok Node.Undefined.
Proof.
  intros [Hs Hsector] Hm. rewrite get_plain_inherited by done.
  by rewrite Hsector.
Qed.

Lemma runtime_resolve_own (m : gmap string (gmap string string))
    sector section provider model :
  sector ≠ "__proto__" → provider ≠ "__proto__" →
  m !! sector = Some section → section !! provider = Some model →
  model ≠ "" →
  Node.resolve E (Node.plain m) sector provider = Ok (Node.Str model).
Proof.
  intros Hs Hp Hm Hentry Hne%truthy_nonempty. unfold Node.resolve.
  rewrite (member_get_own m sector section provider) by done.
  rewrite Hentry. cbn [Node.truthy]. by rewrite Hne.
Qed.

Lemma runtime_resolve_fallback (m : gmap string (gmap string string))
    sector section provider model :
  not_inherited E sector → m !! sector = None → provider ≠ "__proto__" →
  m !! "semantic" = Some section → section !! provider = Some model →
  model ≠ "" →
  Node.resolve E (Node.plain m) sector provider = Ok (Node.Str model).
Proof.
  intros Hs Hm Hp Hsem Hentry Hne%truthy_nonempty. unfold Node.resolve.
  rewrite member_get_missing by done. cbn [Node.truthy].
  rewrite (member_get_own m "semantic" section provider) by done.
  rewrite Hentry. cbn [Node.truthy]. by rewrite Hne.
Qed.

End RuntimeLookups.

(** X8. The first call decides every later answer: when the first call
    of a caller asking for models one after the other loads a mapping, each
    answer is the lookup in that mapping, on whatever hosts the later calls
    run, up to the first lookup that throws; and after the whole sequence
    the process state is the one the first load left (no later probe, read
    or diagnostic; no reload). *)
Theorem first_load_decides_later_answers E h sector provider calls st c st1 :
  Node.load_models h st = (Ok c, st1) →
  runtime_get_models E ((h, sector, provider) :: calls) st
  = (resolve_all E c ((h, sector, provider) :: calls), st1).
Proof.
  intros Hload. pose proof (runtime_load_models_caches h st c st1 Hload) as Hcfg.
  cbn [runtime_get_models resolve_all]. unfold Node.bind at 1.
  rewrite (runtime_get_model_unfold h E sector provider st c st1 Hload).
  destruct (Node.resolve E c sector provider) as [model|e]; [|done].
  unfold Node.bind at 1. rewrite (runtime_get_models_cached E calls st1 c Hcfg).
  by destruct (resolve_all E c calls).
Qed.

Lemma first_load_decides_later_answers_witness :
  Node.load_models (runtime_disk_host ∅) Node.process_start
  = (Ok Node.get_defaults,
     {| Node.cfg := Some Node.get_defaults;
        Node.trace :=
          [ ExistsSync "/srv/om/models.yml";
            ExistsSync "/app/models.yml";
            ExistsSync "/srv/om/backend/models.yml";
            ConsoleWarn "[MODELS] models.yml not found, using defaults" ] |})
  ∧ runtime_get_models sample_engine
      [ (runtime_disk_host ∅, "semantic", "openai");
        (runtime_disk_host {[ "/app/models.yml" := sample_yml ]},
         "semantic", "openai");
        (removed_cwd_host ∅, "reflective", "local") ]
      Node.process_start
    = (resolve_all sample_engine Node.get_defaults
         [ (runtime_disk_host ∅, "semantic", "openai");
           (runtime_disk_host {[ "/app/models.yml" := sample_yml ]},
            "semantic", "openai");
           (removed_cwd_host ∅, "reflective", "local") ],
       {| Node.cfg := Some Node.get_defaults;
          Node.trace :=
            [ ExistsSync "/srv/om/models.yml";
              ExistsSync "/app/models.yml";
              ExistsSync "/srv/om/backend/models.yml";
              ConsoleWarn "[MODELS] models.yml not found, using defaults" ] |}).
Proof.
  assert (Node.load_models (runtime_disk_host ∅) Node.process_start
          = (Ok Node.get_defaults,
             {| Node.cfg := Some Node.get_defaults;
                Node.trace :=
                  [ ExistsSync "/srv/om/models.yml";
                    ExistsSync "/app/models.yml";
                    ExistsSync "/srv/om/backend/models.yml";
                    ConsoleWarn "[MODELS] models.yml not found, using defaults" ] |}))
    as Hload by by_evaluation.
  split; [exact Hload|].
  exact (first_load_decides_later_answers sample_engine (runtime_disk_host ∅)
           "semantic" "openai"
           [ (runtime_disk_host {[ "/app/models.yml" := sample_yml ]},
              "semantic", "openai");
             (removed_cwd_host ∅, "reflective", "local") ]
           Node.process_start Node.get_defaults _ Hload).
Defined.

Example later_answers_from_first_load :
  resolve_all sample_engine Node.get_defaults
    [ (runtime_disk_host ∅, "semantic", "openai");
      (runtime_disk_host {[ "/app/models.yml" := sample_yml ]},
       "semantic", "openai");
      (removed_cwd_host ∅, "reflective", "local") ]
  = Ok [ Node.Str "text-embedding-3-small";
         Node.Str "text-embedding-3-small";
         Node.Str "all-mpnet-base-v2" ].
Proof. by_evaluation. Qed.

Example file_change_not_picked_up :
  (get_models [ (bare_host, "semantic", "openai");
                (sample_host, "semantic", "openai") ] process_start).1
  = Ok ["text-embedding-3-small"; "text-embedding-3-small"]
  ∧ (get_models [ (sample_host, "semantic", "openai");
                  (bare_host, "semantic", "openai") ] process_start).1
    = Ok ["custom-model-A"; "custom-model-A"].
Proof. by_evaluation. Qed.

(** X9. Over the life of a process the trace is empty while the cache
    cell is empty, and from the first load on it is that load's footprint:
    one to three existence probes, then one diagnostic, with at most one
    file read in between, of the last path probed.  A warning or an error
    report comes with the defaults table in the cell; a report of sections
    found comes with the parsed content of a file and that content's
    number of sections. *)
Theorem process_lifetime_trace st :
  reachable st →
  match cfg st with
  | None => trace st = []
  | Some c => load_footprint c (trace st)
  end.
Proof.
  assert (∀ h st,
            match cfg st with
            | None => trace st = []
            | Some c => load_footprint c (trace st)
            end →
            match cfg (load_models h st).2 with
            | None => trace (load_models h st).2 = []
            | Some c => load_footprint c (trace (load_models h st).2)
            end) as Hstep.
  { intros h st0 Hst0. destruct (cfg st0) as [c|] eqn:Hcfg.
    - rewrite (load_models_cached h st0 c Hcfg). cbn [snd]. by rewrite Hcfg.
    - rewrite (load_models_fresh h st0 Hcfg). cbn [snd cache cfg trace].
      rewrite Hst0. apply load_outcome_footprint. }
  induction 1 as [|h st _ IH|h sector provider st _ IH].
  - done.
  - by apply Hstep.
  - destruct (load_models_total h st) as (c & st' & Hload & _).
    rewrite (get_model_unfold _ _ _ _ _ _ Hload). cbn [snd].
    replace st' with (load_models h st).2 by (by rewrite Hload).
    by apply Hstep.
Qed.

Lemma process_lifetime_trace_witness :
  reachable (get_model unreadable_host "semantic" "openai" process_start).2
  ∧ match cfg (get_model unreadable_host "semantic" "openai" process_start).2 with
    | None => trace (get_model unreadable_host "semantic" "openai" process_start).2 = []
    | Some c =>
        load_footprint c
          (trace (get_model unreadable_host "semantic" "openai" process_start).2)
    end.
Proof.
  assert (reachable (get_model unreadable_host "semantic" "openai" process_start).2)
    as Hreach by (constructor; constructor).
  split; [exact Hreach|]. exact (process_lifetime_trace _ Hreach).
Defined.

(** X10. A readable configuration file replaces the defaults table
    altogether: when the located file has no section header (an empty
    file, comments only, top-level scalars only), every lookup for a sector
    that reaches nothing of [Object.prototype] answers
    ["nomic-embed-text"], also for the sectors and providers of the
    built-in table. *)
Theorem headerless_file_answers_literal E h st p yml :
  Node.cfg st = None →
  (Node.find_models_file h st).1 = Ok (Some p) →
  Node.readFileSync h p = Ok yml →
  Forall opens_no_section (JsString.split "010" yml) →
  ∀ sector provider,
    not_inherited E sector → not_inherited E "semantic" →
    (Node.get_model E h sector provider st).1
    = Ok (Node.Str "nomic-embed-text").
Proof.
  intros Hnone Hfound Hread Hlines sector provider Hsector Hsemantic.
  destruct (runtime_load_models_read h st p yml Hnone Hfound Hread)
    as (c & st' & Hparse & Hload).
  rewrite (runtime_get_model_unfold h E sector provider st c st' Hload).
  cbn [fst]. unfold Node.parse_yaml in Hparse.
  rewrite runtime_parse_lines_no_section in Hparse by done.
  injection Hparse as <-. unfold Node.resolve.
  change (Node.obj Node.parse_start) with (Node.plain ∅).
  by rewrite !member_get_missing by (done || apply lookup_empty).
Qed.

Lemma headerless_file_answers_literal_witness :
  Node.cfg Node.process_start = None
  ∧ (Node.find_models_file (runtime_disk_host {[ "/app/models.yml" := "foo: bar" ]})
       Node.process_start).1
    = Ok (Some "/app/models.yml")
  ∧ Node.readFileSync (runtime_disk_host {[ "/app/models.yml" := "foo: bar" ]})
      "/app/models.yml" = Ok "foo: bar"
  ∧ Forall opens_no_section (JsString.split "010" "foo: bar")
  ∧ not_inherited sample_engine "reflective"
  ∧ not_inherited sample_engine "semantic"
  ∧ (Node.get_model sample_engine
       (runtime_disk_host {[ "/app/models.yml" := "foo: bar" ]})
       "reflective" "openai" Node.process_start).1
    = Ok (Node.Str "nomic-embed-text").
Proof.
  assert (Node.cfg Node.process_start = None) as Hnone by reflexivity.
  assert ((Node.find_models_file
             (runtime_disk_host {[ "/app/models.yml" := "foo: bar" ]})
             Node.process_start).1
          = Ok (Some "/app/models.yml")) as Hfound by by_evaluation.
  assert (Node.readFileSync
            (runtime_disk_host {[ "/app/models.yml" := "foo: bar" ]})
            "/app/models.yml" = Ok "foo: bar")
    as Hread by by_evaluation.
  assert (Forall opens_no_section (JsString.split "010" "foo: bar")) as Hlines
    by (repeat constructor; intros key; vm_compute; discriminate).
  assert (not_inherited sample_engine "reflective") as Hsector
    by (split; [discriminate|reflexivity]).
  assert (not_inherited sample_engine "semantic") as Hsemantic
    by (split; [discriminate|reflexivity]).
  split; [exact Hnone|]. split; [exact Hfound|]. split; [exact Hread|].
  split; [exact Hlines|]. split; [exact Hsector|]. split; [exact Hsemantic|].
  exact (headerless_file_answers_literal sample_engine
           (runtime_disk_host {[ "/app/models.yml" := "foo: bar" ]})
           Node.process_start "/app/models.yml" "foo: bar"
           Hnone Hfound Hread Hlines "reflective" "openai" Hsector Hsemantic).
Defined.

(** X11. From the file to the answer: when the located file is readable
    and none of its lines has the key [__proto__], [get_model] for a sector
    with a non-empty name and a provider listed in the block after the
    sector's last header answers with the block's entry for it. *)
Theorem file_entry_is_answer E h st p pre hdr block post sector provider model :
  Node.cfg st = None →
  (Node.find_models_file h st).1 = Ok (Some p) →
  Node.readFileSync h p = Ok (JsString.join nl (pre ++ hdr :: block ++ post)) →
  header_line hdr sector → sector ≠ "" →
  Forall single_line (pre ++ hdr :: block ++ post) →
  Forall opens_no_section block →
  post = [] ∨ (∃ hdr' key' rest, post = hdr' :: rest ∧ header_line hdr' key') →
  Forall (λ l, ¬ header_line l sector) post →
  proto_free (pre ++ hdr :: block ++ post) →
  block_entries block !! provider = Some model →
  (Node.get_model E h sector provider st).1 = Ok (Node.Str model).
Proof.
  intros Hnone Hfound Hread Hhdr Hname Hlines Hblock Hpost Hothers Hfree Hentry.
  destruct (runtime_load_models_read h st p _ Hnone Hfound Hread)
    as (c & st' & Hparse & Hload).
  rewrite (runtime_get_model_unfold h E sector provider st c st' Hload).
  cbn [fst].
  rewrite runtime_parse_yaml_all_lines in Hparse by done.
  injection Hparse as <-.
  destruct (parse_yaml_section_content pre hdr block post sector
              Hhdr Hname Hlines Hblock Hpost Hothers) as (c & Hparse & Hsection).
  rewrite parse_yaml_all_lines in Hparse by done. injection Hparse as <-.
  unfold proto_free in Hfree. rewrite Forall_forall in Hfree.
  apply (runtime_resolve_own E _ sector (block_entries block) provider model);
    [| |done|done|by eapply block_entries_nonempty].
  - rewrite <- (header_line_key hdr sector Hhdr). apply Hfree.
    apply elem_of_app. right. apply elem_of_cons. by left.
  - destruct (block_entries_key block provider model Hentry)
      as (line & Hin & <-).
    apply Hfree. apply elem_of_app. right. apply elem_of_cons. right.
    apply elem_of_app. by left.
Qed.

Lemma file_entry_is_answer_witness :
  Node.cfg Node.process_start = None
  ∧ (Node.find_models_file
       (runtime_disk_host {[ "/srv/om/models.yml" := sample_yml ]})
       Node.process_start).1
    = Ok (Some "/srv/om/models.yml")
  ∧ header_line "semantic:" "semantic"
  ∧ proto_free ([] ++ "semantic:"
                   :: ["  openai: custom-model-A"; "# comment line"]
                   ++ ["episodic:"; "  local: custom-model-B"])
  ∧ block_entries ["  openai: custom-model-A"; "# comment line"] !! "openai"
    = Some "custom-model-A"
  ∧ (Node.get_model sample_engine
       (runtime_disk_host {[ "/srv/om/models.yml" := sample_yml ]})
       "semantic" "openai" Node.process_start).1
    = Ok (Node.Str "custom-model-A").
Proof.
  assert (Node.cfg Node.process_start = None) as Hnone by reflexivity.
  assert ((Node.find_models_file
             (runtime_disk_host {[ "/srv/om/models.yml" := sample_yml ]})
             Node.process_start).1
          = Ok (Some "/srv/om/models.yml")) as Hfound by by_evaluation.
  assert (Node.readFileSync
            (runtime_disk_host {[ "/srv/om/models.yml" := sample_yml ]})
            "/srv/om/models.yml"
          = Ok (JsString.join nl
                  ([] ++ "semantic:"
                      :: ["  openai: custom-model-A"; "# comment line"]
                      ++ ["episodic:"; "  local: custom-model-B"])))
    as Hread by by_evaluation.
  assert (header_line "semantic:" "semantic") as Hhdr.
  { repeat split. exists [""]. split; reflexivity. }
  assert ("semantic" ≠ "") as Hname by discriminate.
  assert (Forall single_line
            ([] ++ "semantic:"
                :: ["  openai: custom-model-A"; "# comment line"]
                ++ ["episodic:"; "  local: custom-model-B"])) as Hlines
    by (repeat constructor).
  assert (Forall opens_no_section ["  openai: custom-model-A"; "# comment line"])
    as Hblock by (repeat constructor; intros key; vm_compute; discriminate).
  assert (["episodic:"; "  local: custom-model-B"] = []
          ∨ ∃ hdr' key' rest,
              ["episodic:"; "  local: custom-model-B"] = hdr' :: rest
              ∧ header_line hdr' key') as Hpost.
  { right. exists "episodic:", "episodic", ["  local: custom-model-B"].
    split; [reflexivity|]. repeat split. exists [""]. split; reflexivity. }
  assert (Forall (λ l, ¬ header_line l "semantic")
            ["episodic:"; "  local: custom-model-B"]) as Hothers.
  { repeat constructor; intros (_ & _ & _ & parts & Hsplit & _);
      vm_compute in Hsplit; discriminate. }
  assert (proto_free ([] ++ "semantic:"
                         :: ["  openai: custom-model-A"; "# comment line"]
                         ++ ["episodic:"; "  local: custom-model-B"])) as Hfree
    by (repeat constructor; vm_compute; discriminate).
  assert (block_entries ["  openai: custom-model-A"; "# comment line"] !! "openai"
          = Some "custom-model-A") as Hentry by by_evaluation.
  split; [exact Hnone|]. split; [exact Hfound|]. split; [exact Hhdr|].
  split; [exact Hfree|]. split; [exact Hentry|].
  exact (file_entry_is_answer sample_engine
           (runtime_disk_host {[ "/srv/om/models.yml" := sample_yml ]})
           Node.process_start "/srv/om/models.yml"
           [] "semantic:" ["  openai: custom-model-A"; "# comment line"]
           ["episodic:"; "  local: custom-model-B"] "semantic" "openai"
           "custom-model-A" Hnone Hfound Hread Hhdr Hname Hlines Hblock Hpost
           Hothers Hfree Hentry).
Defined.

(** X12. With the defaults table in use, a sector outside the built-in
    five that reaches nothing of [Object.prototype] resolves like
    [semantic] for each built-in provider, and a provider outside the
    built-in five that reaches nothing of [Object.prototype] resolves to
    ["nomic-embed-text"], for the built-in sectors and for every sector
    that reaches nothing either. *)
Theorem defaults_unknown_names E h st cwd :
  Node.cfg st = None ∨ Node.cfg st = Some Node.get_defaults →
  Node.process_cwd h = Ok cwd →
  Forall (λ p, Node.existsSync h p = false) (candidate_paths (with_cwd h cwd)) →
  (∀ sector provider,
      sector ∉ builtin_sectors → not_inherited E sector →
      provider ∈ builtin_providers →
      ∃ model, get_defaults !! "semantic" ≫= (.!! provider) = Some model
               ∧ (Node.get_model E h sector provider st).1
                 = Ok (Node.Str model))
  ∧ (∀ sector provider,
      provider ∉ builtin_providers → not_inherited E provider →
      sector ∈ builtin_sectors ∨ not_inherited E sector →
      (Node.get_model E h sector provider st).1
      = Ok (Node.Str "nomic-embed-text")).
Proof.
  intros Hcell Hcwd Habsent.
  destruct (runtime_load_models_no_file h cwd st Hcell Hcwd Habsent)
    as (st' & Hload & _).
  assert (∀ sector, sector ∉ builtin_sectors → get_defaults !! sector = None)
    as Hmissing.
  { intros sector Hs.
    destruct (get_defaults !! sector) as [section|] eqn:Hsec; [|done].
    destruct Hs. by eapply get_defaults_sections. }
  assert (∀ sector section provider,
            provider ∉ builtin_providers →
            get_defaults !! sector = Some section →
            section !! provider = None) as Hprovider.
  { intros sector section provider Hp Hs.
    destruct (section !! provider) as [model|] eqn:Hm; [|done].
    destruct Hp. by eapply get_defaults_providers. }
  assert (∀ sector, sector ∈ builtin_sectors →
            sector ≠ "__proto__" ∧ is_Some (get_defaults !! sector)) as Hbuiltin.
  { intros sector. unfold builtin_sectors.
    rewrite !elem_of_cons, elem_of_nil.
    intros [->|[->|[->|[->|[->|[]]]]]]; (split; [discriminate|by eexists]). }
  split.
  - intros sector provider Hs Hsector Hp.
    rewrite (runtime_get_model_unfold h E sector provider st _ st' Hload).
    cbn [fst]. unfold builtin_providers in Hp.
    rewrite !elem_of_cons, elem_of_nil in Hp.
    destruct Hp as [->|[->|[->|[->|[->|[]]]]]];
      (eexists; split; [vm_compute; reflexivity |];
       eapply (runtime_resolve_fallback E get_defaults sector);
       [done | by apply Hmissing | discriminate | by_evaluation
        | by_evaluation | discriminate]).
  - intros sector provider Hp [Hname Hnone] Hsector.
    rewrite (runtime_get_model_unfold h E sector provider st _ st' Hload).
    cbn [fst]. unfold Node.resolve.
    assert (Node.member E (Node.get E (Node.plain get_defaults) "semantic") provider
            = Ok Node.Undefined) as Hsemantic.
    { destruct (Hbuiltin "semantic") as [Hne [section Hsection]].
      { unfold builtin_sectors. rewrite !elem_of_cons. tauto. }
      rewrite (member_get_own E get_defaults "semantic" section provider)
        by done.
      by rewrite (Hprovider "semantic" section provider Hp Hsection), Hnone. }
    assert (Node.member E (Node.get E (Node.plain get_defaults) sector) provider
            = Ok Node.Undefined) as Hown.
    { destruct Hsector as [Hin|Hsector].
      - destruct (Hbuiltin sector Hin) as [Hne [section Hsection]].
        rewrite (member_get_own E get_defaults sector section provider) by done.
        by rewrite (Hprovider sector section provider Hp Hsection), Hnone.
      - destruct (get_defaults !! sector) as [section|] eqn:Hsection.
        + destruct Hsector as [Hne _].
          rewrite (member_get_own E get_defaults sector section provider)
            by done.
          by rewrite (Hprovider sector section provider Hp Hsection), Hnone.
        + by apply member_get_missing. }
    change Node.get_defaults with (Node.plain get_defaults).
    by rewrite Hown, Hsemantic.
Qed.

Lemma defaults_unknown_names_witness :
  (Node.cfg Node.process_start = None
   ∨ Node.cfg Node.process_start = Some Node.get_defaults)
  ∧ Forall (λ p, Node.existsSync (runtime_disk_host ∅) p = false)
      (candidate_paths (with_cwd (runtime_disk_host ∅) "/srv/om/backend"))
  ∧ ("unknown-provider" ∉ builtin_providers)
  ∧ not_inherited sample_engine "unknown-provider"
  ∧ (Node.get_model sample_engine (runtime_disk_host ∅)
       "episodic" "unknown-provider" Node.process_start).1
    = Ok (Node.Str "nomic-embed-text").
Proof.
  assert (Node.cfg Node.process_start = None
          ∨ Node.cfg Node.process_start = Some Node.get_defaults)
    as Hcell by (left; reflexivity).
  assert (Forall (λ p, Node.existsSync (runtime_disk_host ∅) p = false)
            (candidate_paths (with_cwd (runtime_disk_host ∅) "/srv/om/backend")))
    as Habsent by (repeat constructor).
  assert ("unknown-provider" ∉ builtin_providers) as Hp.
  { unfold builtin_providers. rewrite !elem_of_cons, elem_of_nil.
    intros [?|[?|[?|[?|[?|[]]]]]]; discriminate. }
  assert (not_inherited sample_engine "unknown-provider") as Hnone
    by (split; [discriminate|reflexivity]).
  assert ("episodic" ∈ builtin_sectors
          ∨ not_inherited sample_engine "episodic") as Hsector.
  { left. unfold builtin_sectors. rewrite !elem_of_cons. tauto. }
  split; [exact Hcell|]. split; [exact Habsent|]. split; [exact Hp|].
  split; [exact Hnone|].
  exact (proj2 (defaults_unknown_names sample_engine (runtime_disk_host ∅)
                  Node.process_start "/srv/om/backend" Hcell eq_refl Habsent)
           "episodic" "unknown-provider" Hp Hnone Hsector).
Defined.

(** X14. The [semantic] block of the file is the fallback of every sector
    the file does not mention: when the located file is readable, none of
    its lines has the key [__proto__] and it has no header for a sector,
    [get_model] for that sector, when it reaches nothing of
    [Object.prototype], and a provider listed in the block after the last
    [semantic] header answers with the block's entry for it. *)
Theorem semantic_block_is_fallback E h st p pre hdr block post sector provider model :
  Node.cfg st = None →
  (Node.find_models_file h st).1 = Ok (Some p) →
  Node.readFileSync h p = Ok (JsString.join nl (pre ++ hdr :: block ++ post)) →
  header_line hdr "semantic" →
  Forall single_line (pre ++ hdr :: block ++ post) →
  Forall opens_no_section block →
  post = [] ∨ (∃ hdr' key' rest, post = hdr' :: rest ∧ header_line hdr' key') →
  Forall (λ l, ¬ header_line l "semantic") post →
  Forall (λ l, ¬ header_line l sector) (pre ++ hdr :: block ++ post) →
  proto_free (pre ++ hdr :: block ++ post) →
  not_inherited E sector →
  block_entries block !! provider = Some model →
  (Node.get_model E h sector provider st).1 = Ok (Node.Str model).
Proof.
  intros Hnone Hfound Hread Hhdr Hlines Hblock Hpost Hothers Hsector Hfree
    Hreach Hentry.
  destruct (runtime_load_models_read h st p _ Hnone Hfound Hread)
    as (c & st' & Hparse & Hload).
  rewrite (runtime_get_model_unfold h E sector provider st c st' Hload).
  cbn [fst].
  rewrite runtime_parse_yaml_all_lines in Hparse by done.
  injection Hparse as <-.
  assert ("semantic" ≠ "") as Hname by discriminate.
  destruct (parse_yaml_section_content pre hdr block post "semantic"
              Hhdr Hname Hlines Hblock Hpost Hothers) as (c & Hparse & Hsection).
  pose proof Hparse as Hparse'.
  rewrite parse_yaml_all_lines in Hparse by done. injection Hparse as <-.
  apply (runtime_resolve_fallback E _ sector (block_entries block) provider model);
    [done| | |done|done|by eapply block_entries_nonempty].
  - apply (parse_yaml_no_header _ _ sector Hparse').
    unfold nl. rewrite split_join; [done|by destruct pre|done].
  - destruct (block_entries_key block provider model Hentry)
      as (line & Hin & <-).
    unfold proto_free in Hfree. rewrite Forall_forall in Hfree.
    apply Hfree. apply elem_of_app. right. apply elem_of_cons. right.
    apply elem_of_app. by left.
Qed.

Lemma semantic_block_is_fallback_witness :
  Node.cfg Node.process_start = None
  ∧ (Node.find_models_file
       (runtime_disk_host {[ "/srv/om/backend/models.yml"
                             := "semantic:" +:+ nl +:+ "  openai: m1" ]})
       Node.process_start).1
    = Ok (Some "/srv/om/backend/models.yml")
  ∧ header_line "semantic:" "semantic"
  ∧ Forall (λ l, ¬ header_line l "reflective")
      ([] ++ "semantic:" :: ["  openai: m1"] ++ [])
  ∧ proto_free ([] ++ "semantic:" :: ["  openai: m1"] ++ [])
  ∧ not_inherited sample_engine "reflective"
  ∧ block_entries ["  openai: m1"] !! "openai" = Some "m1"
  ∧ (Node.get_model sample_engine
       (runtime_disk_host {[ "/srv/om/backend/models.yml"
                             := "semantic:" +:+ nl +:+ "  openai: m1" ]})
       "reflective" "openai" Node.process_start).1
    = Ok (Node.Str "m1").
Proof.
  assert (Node.cfg Node.process_start = None) as Hnone by reflexivity.
  assert ((Node.find_models_file
             (runtime_disk_host {[ "/srv/om/backend/models.yml"
                                   := "semantic:" +:+ nl +:+ "  openai: m1" ]})
             Node.process_start).1
          = Ok (Some "/srv/om/backend/models.yml")) as Hfound by by_evaluation.
  assert (Node.readFileSync
            (runtime_disk_host {[ "/srv/om/backend/models.yml"
                                  := "semantic:" +:+ nl +:+ "  openai: m1" ]})
            "/srv/om/backend/models.yml"
          = Ok (JsString.join nl ([] ++ "semantic:" :: ["  openai: m1"] ++ [])))
    as Hread by by_evaluation.
  assert (header_line "semantic:" "semantic") as Hhdr.
  { repeat split. exists [""]. split; reflexivity. }
  assert (Forall single_line ([] ++ "semantic:" :: ["  openai: m1"] ++ []))
    as Hlines by (repeat constructor).
  assert (Forall opens_no_section ["  openai: m1"]) as Hblock
    by (repeat constructor; intros key; vm_compute; discriminate).
  assert (@nil string = []
          ∨ ∃ hdr' key' rest, [] = hdr' :: rest ∧ header_line hdr' key')
    as Hpost by (left; reflexivity).
  assert (Forall (λ l, ¬ header_line l "semantic") []) as Hothers
    by constructor.
  assert (Forall (λ l, ¬ header_line l "reflective")
            ([] ++ "semantic:" :: ["  openai: m1"] ++ [])) as Hsector.
  { repeat constructor; intros (_ & _ & Hindent & parts & Hsplit & _);
      vm_compute in Hsplit, Hindent; discriminate. }
  assert (proto_free ([] ++ "semantic:" :: ["  openai: m1"] ++ [])) as Hfree
    by (repeat constructor; vm_compute; discriminate).
  assert (not_inherited sample_engine "reflective") as Hreach
    by (split; [discriminate|reflexivity]).
  assert (block_entries ["  openai: m1"] !! "openai" = Some "m1") as Hentry
    by by_evaluation.
  split; [exact Hnone|]. split; [exact Hfound|]. split; [exact Hhdr|].
  split; [exact Hsector|]. split; [exact Hfree|]. split; [exact Hreach|].
  split; [exact Hentry|].
  exact (semantic_block_is_fallback sample_engine
           (runtime_disk_host {[ "/srv/om/backend/models.yml"
                                 := "semantic:" +:+ nl +:+ "  openai: m1" ]})
           Node.process_start
           "/srv/om/backend/models.yml" [] "semantic:" ["  openai: m1"] []
           "reflective" "openai" "m1" Hnone Hfound Hread Hhdr Hlines Hblock
           Hpost Hothers Hsector Hfree Hreach Hentry).
Defined.

(** * Further properties of the program on the runtime *)

Section RuntimeStates.

Variable E : Node.engine.

(** The state [get_model] leaves is the state its load leaves. *)
Lemma runtime_get_model_state h sector provider st :
  (Node.get_model E h sector provider st).2 = (Node.load_models h st).2.
Proof.
  unfold Node.get_model, Node.bind, Node.lift.
  by destruct (Node.load_models h st) as [[c|e] st'].
Qed.

Lemma runtime_load_outcome_nonempty h cwd :
  values_nonempty (Node.sections (runtime_load_outcome h cwd).1).
Proof.
  unfold runtime_load_outcome.
  destruct (List.find _ _) as [p|]; [|apply get_defaults_nonempty].
  destruct (Node.readFileSync h p) as [yml|e]; [|apply get_defaults_nonempty].
  destruct (runtime_parse_yaml_total yml) as (c & -> & Hc & _). done.
Qed.

Lemma runtime_load_models_preserves_nonempty h st :
  (∀ c, Node.cfg st = Some c → values_nonempty (Node.sections c)) →
  ∀ c, Node.cfg (Node.load_models h st).2 = Some c →
       values_nonempty (Node.sections c).
Proof.
  intros Hst c. destruct (Node.cfg st) as [c0|] eqn:Hcfg.
  - rewrite (runtime_load_models_cached h st c0 Hcfg); simpl. rewrite Hcfg. auto.
  - destruct (Node.process_cwd h) as [cwd|e] eqn:Hcwd.
    + rewrite (runtime_load_models_fresh h cwd st Hcfg Hcwd); simpl.
      intros [= <-]. apply runtime_load_outcome_nonempty.
    + rewrite (runtime_load_models_throws h e st Hcfg Hcwd); simpl.
      by rewrite Hcfg.
Qed.

(** Reachable process states cache non-empty values only. *)
Lemma runtime_reachable_nonempty st c :
  runtime_reachable E st → Node.cfg st = Some c →
  values_nonempty (Node.sections c).
Proof.
  intros Hreach. revert c.
  induction Hreach as [|h st _ IH|h sector provider st _ IH]; intros c.
  - discriminate.
  - by apply runtime_load_models_preserves_nonempty.
  - rewrite runtime_get_model_state.
    by apply runtime_load_models_preserves_nonempty.
Qed.

End RuntimeStates.

(** X15. When [process.cwd()] returns, [find_models_file] probes three
    paths, in this order: the file [models.yml] joined to the module's
    directory through [../../../], the absolute path [/app/models.yml], and
    [models.yml] joined to the working directory.  It returns the first of
    them that [existsSync] accepts and probes no further; when none exists,
    it returns [null].  For a module directory at depth three or more the
    first path is [models.yml] three directories up. *)
Theorem find_models_file_priority_with_cwd h st cwd :
  Node.process_cwd h = Ok cwd →
  let p1 := NodePath.join (Node.__dirname h) "../../../models.yml" in
  let p2 := "/app/models.yml" in
  let p3 := NodePath.join cwd "models.yml" in
  (Node.find_models_file h st).1
  = Ok (if Node.existsSync h p1 then Some p1
        else if Node.existsSync h p2 then Some p2
        else if Node.existsSync h p3 then Some p3
        else None)
  ∧ Node.cfg (Node.find_models_file h st).2 = Node.cfg st
  ∧ Node.trace (Node.find_models_file h st).2
    = Node.trace st
      ++ (ExistsSync
            <$> p1 :: (if Node.existsSync h p1 then []
                       else p2 :: (if Node.existsSync h p2 then [] else [p3])))
  ∧ (∀ dirs a b c,
        Forall plain_segment (dirs ++ [a; b; c]) →
        Node.__dirname h = absolute_path (dirs ++ [a; b; c]) →
        p1 = absolute_path (dirs ++ ["models.yml"]))
  ∧ (∀ dirs,
        Forall plain_segment dirs →
        cwd = absolute_path dirs →
        p3 = absolute_path (dirs ++ ["models.yml"])).
Proof.
  intros Hcwd p1 p2 p3. rewrite (runtime_find_models_file_returns h cwd st Hcwd).
  split; [|split; [done|split; [|split]]].
  - cbn [fst]. unfold candidate_paths. cbn [with_cwd __dirname process_cwd].
    fold p1 p2 p3. cbn [List.find].
    by destruct (Node.existsSync h p1), (Node.existsSync h p2),
      (Node.existsSync h p3).
  - cbn [snd runtime_log Node.trace]. unfold candidate_paths.
    cbn [with_cwd __dirname process_cwd]. fold p1 p2 p3.
    cbn [probed].
    change (existsSync (with_cwd h cwd)) with (Node.existsSync h).
    by destruct (Node.existsSync h p1), (Node.existsSync h p2),
      (Node.existsSync h p3).
  - intros dirs a b c Hsegs Hdir. subst p1. rewrite Hdir. by apply join_three_up.
  - intros dirs Hsegs Hdirs. subst p3. rewrite Hdirs. by apply join_in_directory.
Qed.

Lemma find_models_file_priority_with_cwd_witness :
  Node.find_models_file (runtime_disk_host {[ "/app/models.yml" := "foo: bar" ]})
    Node.process_start
  = (Ok (Some "/app/models.yml"),
     {| Node.cfg := None;
        Node.trace := [ ExistsSync "/srv/om/models.yml";
                        ExistsSync "/app/models.yml" ] |})
  ∧ Forall plain_segment (["srv"; "om"] ++ ["backend"; "dist"; "core"])
  ∧ NodePath.join
      (Node.__dirname (runtime_disk_host {[ "/app/models.yml" := "foo: bar" ]}))
      "../../../models.yml"
    = absolute_path (["srv"; "om"] ++ ["models.yml"]).
Proof.
  assert (Forall plain_segment (["srv"; "om"] ++ ["backend"; "dist"; "core"]))
    as Hsegs by (repeat constructor; done).
  split; [by_evaluation|]. split; [exact Hsegs|].
  exact (proj1 (proj2 (proj2 (proj2
           (find_models_file_priority_with_cwd
              (runtime_disk_host {[ "/app/models.yml" := "foo: bar" ]})
              Node.process_start "/srv/om/backend" eq_refl))))
         ["srv"; "om"] "backend" "dist" "core" Hsegs eq_refl).
Defined.

(** X16. The fallback chain, for names that reach nothing of
    [Object.prototype]: in every process state that calls of the exported
    functions produce, when the load returns a mapping that has
    [Object.prototype] as its prototype, [get_model] answers with the
    mapping's own entry for the sector and the provider when there is one,
    otherwise with the [semantic] entry for the provider when there is
    one, otherwise with ["nomic-embed-text"]; the answer is a non-empty
    string. *)
Theorem fallback_chain_for_plain_names E h st sector provider :
  runtime_reachable E st →
  (Node.cfg st = None → ∃ cwd, Node.process_cwd h = Ok cwd) →
  not_inherited E sector → not_inherited E provider →
  not_inherited E "semantic" →
  ∃ mapping st',
    Node.load_models h st = (Ok mapping, st')
    ∧ (Node.created_proto mapping = None →
       ∃ model,
         Node.get_model E h sector provider st = (Ok (Node.Str model), st')
         ∧ model ≠ ""
         ∧ match Node.sections mapping !! sector ≫= (.!! provider) with
           | Some own => model = own
           | None =>
               match Node.sections mapping !! "semantic" ≫= (.!! provider) with
               | Some fallback => model = fallback
               | None => model = "nomic-embed-text"
               end
           end).
Proof.
  intros Hreach Hcwd Hsector Hprovider Hsemantic.
  destruct (runtime_load_models_returns h st Hcwd) as (mapping & st' & Hload & Hcfg).
  exists mapping, st'. split; [done|]. intros Hproto.
  assert (values_nonempty (Node.sections mapping)) as Hne.
  { apply (runtime_reachable_nonempty E st'); [|done].
    replace st' with (Node.load_models h st).2 by (by rewrite Hload).
    by constructor. }
  rewrite (runtime_get_model_unfold h E sector provider st mapping st' Hload).
  destruct mapping as [m proto]. cbn in Hproto, Hne |- *. subst proto.
  change {| Node.sections := m; Node.created_proto := None |} with (Node.plain m).
  rewrite runtime_resolve_plain by done.
  eexists. split; [done|].
  rewrite <- !opt_chain_bind. unfold lookup_model, js_or, js_or_else.
  destruct (opt_chain m sector provider) as [own|] eqn:Hown.
  - pose proof (opt_chain_truthy _ _ _ _ Hne Hown) as Htruthy.
    rewrite Htruthy. cbn. rewrite Htruthy. split; [|done].
    by apply truthy_nonempty.
  - destruct (opt_chain m "semantic" provider) as [fallback|] eqn:Hfb.
    + pose proof (opt_chain_truthy _ _ _ _ Hne Hfb) as Htruthy.
      cbn. rewrite Htruthy. split; [|done]. by apply truthy_nonempty.
    + done.
Qed.

Lemma fallback_chain_for_plain_names_witness :
  runtime_reachable sample_engine Node.process_start
  ∧ not_inherited sample_engine "x"
  ∧ not_inherited sample_engine "openai"
  ∧ not_inherited sample_engine "semantic"
  ∧ ∃ mapping st',
      Node.load_models
        (runtime_disk_host {[ "/srv/om/backend/models.yml"
                              := "semantic:" +:+ nl +:+ "  openai: m1" ]})
        Node.process_start = (Ok mapping, st')
      ∧ (Node.created_proto mapping = None →
         ∃ model,
           Node.get_model sample_engine
             (runtime_disk_host {[ "/srv/om/backend/models.yml"
                                   := "semantic:" +:+ nl +:+ "  openai: m1" ]})
             "x" "openai" Node.process_start
           = (Ok (Node.Str model), st')
           ∧ model ≠ ""
           ∧ match Node.sections mapping !! "x" ≫= (.!! "openai") with
             | Some own => model = own
             | None =>
                 match Node.sections mapping !! "semantic" ≫= (.!! "openai") with
                 | Some fallback => model = fallback
                 | None => model = "nomic-embed-text"
                 end
             end).
Proof.
  assert (runtime_reachable sample_engine Node.process_start) as Hreach
    by constructor.
  assert (not_inherited sample_engine "x") as Hsector
    by (split; [discriminate|reflexivity]).
  assert (not_inherited sample_engine "openai") as Hprovider
    by (split; [discriminate|reflexivity]).
  assert (not_inherited sample_engine "semantic") as Hsemantic
    by (split; [discriminate|reflexivity]).
  split; [exact Hreach|]. split; [exact Hsector|]. split; [exact Hprovider|].
  split; [exact Hsemantic|].
  apply (fallback_chain_for_plain_names sample_engine
           (runtime_disk_host {[ "/srv/om/backend/models.yml"
                                 := "semantic:" +:+ nl +:+ "  openai: m1" ]})
           Node.process_start "x" "openai" Hreach);
    [|exact Hsector|exact Hprovider|exact Hsemantic].
  intros _. by exists "/srv/om/backend".
Defined.

Example semantic_fallback_on_runtime :
  (Node.get_model sample_engine
     (runtime_disk_host {[ "/srv/om/backend/models.yml"
                           := "semantic:" +:+ nl +:+ "  openai: m1" ]})
     "x" "openai" Node.process_start).1 = Ok (Node.Str "m1")
  ∧ (Node.get_model sample_engine
       (runtime_disk_host {[ "/srv/om/backend/models.yml"
                             := "semantic:" +:+ nl +:+ "  openai: m1" ]})
       "x" "gemini" Node.process_start).1 = Ok (Node.Str "nomic-embed-text")
  ∧ (Node.get_model sample_engine (runtime_disk_host ∅)
       "episodic" "unknown-provider" Node.process_start).1
    = Ok (Node.Str "nomic-embed-text").
Proof. by_evaluation. Qed.

(** X17. What the [try] of [load_models] covers: [parse_yaml] never
    throws; when the cache cell is set or [process.cwd()] returns,
    [load_models] returns a mapping and leaves it in the cache cell; and
    when the read of the located file throws, the error is caught and
    reported, and the cache cell receives the defaults table. *)
Theorem no_exception_when_cwd_returns :
  (∀ yml, ∃ c, Node.parse_yaml yml = Ok c)
  ∧ (∀ h st,
        (Node.cfg st = None → ∃ cwd, Node.process_cwd h = Ok cwd) →
        ∃ c st', Node.load_models h st = (Ok c, st') ∧ Node.cfg st' = Some c)
  ∧ (∀ h st p e,
        Node.cfg st = None →
        (Node.find_models_file h st).1 = Ok (Some p) →
        Node.readFileSync h p = Throw e →
        ∃ evs,
          Node.load_models h st
          = (Ok Node.get_defaults,
             {| Node.cfg := Some Node.get_defaults;
                Node.trace :=
                  Node.trace st ++ evs ++ [ReadFileSync p; ConsoleError e] |})).
Proof.
  split; [|split].
  - intros yml. destruct (runtime_parse_yaml_total yml) as (c & Hc & _).
    by exists c.
  - intros h st Hcwd. by apply runtime_load_models_returns.
  - intros h st p e Hnone (cwd & Hcwd & Hfound)%runtime_located_file Hread.
    rewrite (runtime_load_models_fresh h cwd) by done.
    unfold runtime_load_outcome. rewrite Hfound, Hread. cbn [fst snd].
    by eexists.
Qed.

Lemma no_exception_when_cwd_returns_witness :
  ∃ evs,
    Node.load_models
      {| Node.__dirname := "/srv/om/backend/dist/core";
         Node.process_cwd := Ok "/srv/om/backend";
         Node.existsSync := λ p, bool_decide (p = "/app/models.yml");
         Node.readFileSync := λ _, Throw (FsError "EACCES") |}
      Node.process_start
    = (Ok Node.get_defaults,
       {| Node.cfg := Some Node.get_defaults;
          Node.trace := Node.trace Node.process_start ++ evs
                        ++ [ReadFileSync "/app/models.yml";
                            ConsoleError (FsError "EACCES")] |}).
Proof.
  apply (proj2 (proj2 no_exception_when_cwd_returns)
           {| Node.__dirname := "/srv/om/backend/dist/core";
              Node.process_cwd := Ok "/srv/om/backend";
              Node.existsSync := λ p, bool_decide (p = "/app/models.yml");
              Node.readFileSync := λ _, Throw (FsError "EACCES") |}
           Node.process_start "/app/models.yml" (FsError "EACCES"));
    by_evaluation.
Defined.

(** X18. An exception raised by an inherited accessor escapes
    [get_model]: with no section [constructor] in the loaded mapping, the
    lookup [get_model("constructor", "caller")] reads [caller] of the
    function [Object.prototype.constructor]; when that read throws, so does
    [get_model].  The load has been done by then: the cache cell is
    set. *)
Theorem inherited_accessor_exception_escapes E h st st' mapping fn e :
  Node.load_models h st = (Ok (Node.plain mapping), st') →
  mapping !! "constructor" = None →
  Node.proto_member E "constructor" = Node.Foreign fn →
  Node.foreign_member E fn "caller" = Throw e →
  Node.get_model E h "constructor" "caller" st = (Throw e, st')
  ∧ Node.cfg st' = Some (Node.plain mapping).
Proof.
  intros Hload Hsection Hconstructor Hcaller.
  split; [|by apply (runtime_load_models_caches h st)].
  rewrite (runtime_get_model_unfold h E "constructor" "caller" st _ st' Hload).
  unfold Node.resolve.
  rewrite get_plain_inherited by done. rewrite Hconstructor.
  cbn [Node.member]. by rewrite Hcaller.
Qed.

Lemma inherited_accessor_exception_escapes_witness :
  Node.load_models (runtime_disk_host ∅) Node.process_start
  = (Ok (Node.plain get_defaults),
     {| Node.cfg := Some Node.get_defaults;
        Node.trace :=
          [ ExistsSync "/srv/om/models.yml";
            ExistsSync "/app/models.yml";
            ExistsSync "/srv/om/backend/models.yml";
            ConsoleWarn "[MODELS] models.yml not found, using defaults" ] |})
  ∧ (Node.get_model sample_engine (runtime_disk_host ∅) "constructor" "caller"
       Node.process_start).1
    = Throw TypeError.
Proof.
  assert (Node.load_models (runtime_disk_host ∅) Node.process_start
          = (Ok (Node.plain get_defaults),
             {| Node.cfg := Some Node.get_defaults;
                Node.trace :=
                  [ ExistsSync "/srv/om/models.yml";
                    ExistsSync "/app/models.yml";
                    ExistsSync "/srv/om/backend/models.yml";
                    ConsoleWarn "[MODELS] models.yml not found, using defaults" ] |}))
    as Hload by by_evaluation.
  assert (get_defaults !! "constructor" = None) as Hsection by by_evaluation.
  split; [exact Hload|].
  exact (f_equal fst
           (proj1 (inherited_accessor_exception_escapes sample_engine
                     (runtime_disk_host ∅) Node.process_start _ get_defaults
                     "Object" TypeError Hload Hsection eq_refl eq_refl))).
Defined.

Section ProtoKey.

Lemma set_entry_proto_absent (own : gmap string string) key val :
  own !! "__proto__" = None →
  Node.set_entry own key val !! "__proto__" = None.
Proof.
  intros Hown. unfold Node.set_entry. case_decide as Hkey; [done|].
  by rewrite lookup_insert_ne.
Qed.

Lemma runtime_perform_proto_absent st a st' :
  runtime_perform st a = Ok st' →
  proto_key_absent (Node.obj st) → proto_key_absent (Node.obj st').
Proof.
  intros Hstep (Hobj & Hsections & Hproto). revert Hstep.
  destruct a as [|key|key val]; cbn [runtime_perform].
  - by intros [= <-].
  - intros [= <-]. cbn [Node.obj]. unfold Node.set_section.
    case_decide as Hkey; repeat split; cbn; try done.
    + intros own [= <-]. apply lookup_empty.
    + by rewrite lookup_insert_ne.
    + intros sector section. destruct (decide (key = sector)) as [->|Hne].
      * rewrite lookup_insert_eq. intros [= <-]. apply lookup_empty.
      * rewrite lookup_insert_ne by done. apply Hsections.
  - destruct (Node.cur_sec st) as [sec|]; [|by intros [= <-]].
    destruct (JsString.truthy sec); [|by intros [= <-]].
    case_decide as Hname.
    + destruct (Node.created_proto (Node.obj st)) as [target|] eqn:Htarget;
        [|done].
      intros [= <-]. repeat split; cbn; try done.
      intros own [= <-]. by apply set_entry_proto_absent, Hproto.
    + destruct (Node.sections (Node.obj st) !! sec) as [target|] eqn:Htarget;
        [|done].
      intros [= <-]. repeat split; cbn; try done.
      * rewrite lookup_insert_ne; [done|congruence].
      * intros sector section. destruct (decide (sec = sector)) as [->|Hne].
        -- rewrite lookup_insert_eq. intros [= <-].
           by apply set_entry_proto_absent, (Hsections sector).
        -- rewrite lookup_insert_ne by done. apply Hsections.
Qed.

Lemma runtime_parse_lines_proto_absent lines : ∀ st st',
  Node.parse_lines st lines = Ok st' →
  proto_key_absent (Node.obj st) → proto_key_absent (Node.obj st').
Proof.
  induction lines as [|line rest IH]; intros st st' Hparse Hst.
  - cbn in Hparse. by injection Hparse as <-.
  - cbn [Node.parse_lines] in Hparse.
    destruct (Node.parse_line st line) as [st1|] eqn:Hline; [|done].
    apply (IH st1 st' Hparse). rewrite runtime_parse_line_perform in Hline.
    by apply (runtime_perform_proto_absent st (classify line)).
Qed.

End ProtoKey.

(** X19. The key [__proto__] is never recorded.  Whatever the text, the
    result has no section [__proto__], no section has an entry
    [__proto__], and neither has the prototype the parser may have
    created.  The header [__proto__:] leaves the sections alone and makes a
    fresh empty object the prototype of the result; the entries listed
    below it are recorded in that object. *)
Theorem proto_key_never_recorded :
  (∀ yml, ∃ c, Node.parse_yaml yml = Ok c ∧ proto_key_absent c)
  ∧ (∀ st hdr,
        header_line hdr "__proto__" →
        Node.parse_line st hdr
        = Ok {| Node.obj :=
                  {| Node.sections := Node.sections (Node.obj st);
                     Node.created_proto := Some ∅ |};
                Node.cur_sec := Some "__proto__" |})
  ∧ (∀ st line key val own,
        Node.cur_sec st = Some "__proto__" →
        Node.created_proto (Node.obj st) = Some own →
        classify line = Records key val → key ≠ "__proto__" →
        Node.parse_line st line
        = Ok {| Node.obj :=
                  {| Node.sections := Node.sections (Node.obj st);
                     Node.created_proto := Some (<[key := val]> own) |};
                Node.cur_sec := Some "__proto__" |}).
Proof.
  split; [|split].
  - intros yml. unfold Node.parse_yaml.
    destruct (runtime_parse_lines_total (JsString.split "010" yml)
                Node.parse_start runtime_start_inv) as (st & Hparse & _).
    rewrite Hparse. exists (Node.obj st). split; [done|].
    apply (runtime_parse_lines_proto_absent _ _ _ Hparse).
    split; [apply lookup_empty|]. split; [|done].
    intros sector section Hsection.
    change (Node.sections (Node.obj Node.parse_start))
      with (∅ : gmap string (gmap string string)) in Hsection.
    by rewrite lookup_empty in Hsection.
  - intros st hdr Hhdr%classify_header.
    by rewrite runtime_parse_line_perform, Hhdr.
  - intros st line key val own Hcur Hown Hline Hkey.
    rewrite runtime_parse_line_perform, Hline. cbn [runtime_perform].
    rewrite Hcur. cbn [JsString.truthy]. rewrite decide_True by done.
    rewrite Hown. unfold Node.set_entry. by rewrite decide_False.
Qed.

Lemma proto_key_never_recorded_witness :
  header_line "__proto__:" "__proto__"
  ∧ Node.parse_line Node.parse_start "__proto__:"
    = Ok {| Node.obj :=
              {| Node.sections := Node.sections (Node.obj Node.parse_start);
                 Node.created_proto := Some ∅ |};
            Node.cur_sec := Some "__proto__" |}.
Proof.
  assert (header_line "__proto__:" "__proto__") as Hhdr.
  { repeat split. exists [""]. split; reflexivity. }
  split; [exact Hhdr|].
  exact (proj1 (proj2 proto_key_never_recorded) Node.parse_start "__proto__:" Hhdr).
Defined.
